(* ===== verification/_CoqProject ===== *)
-Q . S2P
Prelude.v
CString.v
Reassembly.v
Ordering.v
Wraparound.v
SegmentBufferSpec.v
External.v
Exchange.v
Parse.v
Invariant.v
Sink.v
