(* ===== verification/Prelude.v ===== *)
(** * Verification of httpflow's [custom_parser] (src/custom_parser.cpp)

    ** The program

    httpflow rebuilds HTTP exchanges from captured TCP segments.  One
    [custom_parser] object follows one exchange.  The capture layer calls
    [custom_parser::parse(packet, type)] for every segment, with [type]
    telling the direction ([HTTP_REQUEST] or [HTTP_RESPONSE]).  [parse]

    - re-initialises the one http_parser it owns when [type] differs from
      the parser's type (lines 22-24),
    - reassembles the direction's byte stream (lines 28-51): a segment that
      carries the expected sequence number [next_seq] (or any segment, while
      [next_seq] is 0) is appended to [raw]; a segment below [next_seq] is
      ignored and [parse] returns; a segment ahead is stored in the map
      [out_of_order_packet]; then a loop moves stored segments to [raw] as
      long as one is found at [next_seq],
    - gives the bytes that were added to [raw] to [http_parser_execute]
      (lines 54-57), which calls back into [on_url], [on_header_field],
      [on_header_value], [on_headers_complete], [on_body] and
      [on_message_complete]; these fill the members [url], [method], [host],
      [header], [body], [complete_flag] and [gzip_flag], and
      [on_message_complete] decompresses the response body.

    When both directions are complete the caller uses [save_http_request],
    which filters on [host + url] with a regular expression and writes the
    exchange to the terminal or appends it to a file named after the host.

    ** The files

    - Prelude (this file): [uint32_t] as [Z] with [wrap32] and [u32_add],
      bytes and byte strings ([bytes], [lit], [size_of]), the tactics
      [case_cond], [concrete], [u32_lia], the hint databases.
    - CString: the lower-casing loop of [on_header_field] ([lower_field],
      with its test [is_upper] and its bit flip [flip_case]), translated
      from lines 79-84, and the library routines the callbacks call, written
      from their documented behaviour: [std::string::assign(at, length)]
      ([slice]), the C string at a pointer ([cstr_at], [until_nul]) and
      [std::strstr] ([strstr]).
    - Reassembly: lines 28-51.  The members [raw[t]], [next_seq[t]] and
      [out_of_order_packet[t]] of one direction are the record [stream];
      [accept_segment] is lines 30-40, [drain_step] one iteration of the loop
      of lines 41-51, [drain_all] the loop, [absorb] the whole, with [None]
      for the early return of line 33.  [absorb_all] runs successive calls.
    - Ordering: the reassembly on the segments of one stream in any order
      of arrival ([chain], [reassembled]).
    - Wraparound: what the 32-bit arithmetic and the zero mark of
      [next_seq] guarantee, and where they stop.
    - SegmentBufferSpec: the SegmentBuffer of the specification
      ([segment_buffer], [sb_absorb]), with [abstract] reading a [stream] as
      one, and the refinement of the one by the other.
    - External: what the program calls and does not define, as data and
      type classes: the token parser ([TokenParser]: [http_parser_execute]
      returns the callbacks it makes, the parser afterwards and the number of
      bytes parsed), [Decompressor], [TextHeuristic], [pcre], [Colors], and
      the [output] events; small instances for concrete runs.
    - Exchange: the members of the class as the record [custom_parser]
      (arrays indexed by the parser type are [per_direction] pairs; the
      member [body] is [msg_body]), the constructor ([custom_parser_init]),
      [set_addr], [get_response_body], the six callbacks under their own
      names, the settings table ([call]) and the run of the callbacks of one
      [http_parser_execute] ([run_callbacks]).
    - Parse: [custom_parser::parse] itself ([parse]), with the outcome
      [Crashed] for the null dereference of line 54, and the calls of a
      whole capture ([parse_all]).
    - Invariant: the objects that the constructor and calls of [parse] and
      [set_addr] can produce, as a step relation ([step],
      [object_reachable]), and their well-formedness ([custom_parser_wf]).
    - Sink: [filter_url], [save_http_request] and the two [operator<<]
      ([write_ostream], [write_ofstream]), lines 135-195.

    ** The theorems

    - Reassembly: the loop ends within the bound and leaves nothing at
      [next_seq] ([drain_all_exits]); what [parse] does with a segment below,
      at and ahead of [next_seq] and with the first segment; every call keeps
      the direction well formed and drained ([reachable_invariant]); [raw] only
      grows at its end; bytes are conserved.
    - Ordering: after any part of a stream's segments has arrived, [raw]
      holds the segments up to the first gap and the map exactly those behind
      it ([absorb_all_tracks_gap]); all orders of arrival give the same final
      state ([absorb_all_any_order]); but a first segment that arrives late
      is lost ([absorb_all_late_head]).
    - Wraparound: the baseline is kept modulo 2^32; an entry that has
      fallen below [next_seq] stays for ever; a stream that ends exactly on
      2^32 makes [parse] append a retransmission again
      ([absorb_wrap_to_zero_replays]).
    - CString: the loop of [on_header_field] agrees, byte for byte, with
      the table of the twenty-six letters [ascii_lower], which is written
      without the loop's test and bit flip ([lower_field_is_tolower]).
    - SegmentBufferSpec: runs of [parse] refine the specification's
      SegmentBuffer ([absorb_all_refines_contract]) away from two cases:
      [next_seq] reaching 0, and a second segment ahead under a sequence
      number that already waits, for which the specification does not say
      which payload is kept and the code keeps the first
      ([absorb_ahead_duplicate] of file Reassembly); on the segments of one
      stream in any order the refinement holds without conditions
      ([sb_absorb_all_chain]).
    - Exchange: what each callback stores, [url], [method] and [host]
      included ([call_url_method_host]); the search for ["gzip"] runs past
      the header value ([on_header_value_scans_past_value]); the
      decompression runs on every completed message once [gzip_flag] is set,
      writes [[decompress error]] when it fails
      ([on_message_complete_decompresses]), and the flag is never cleared.
    - Parse: the token parser gets exactly the bytes added to [raw]
      ([parse_feeds_new_bytes]); a capture whose first segment comes first
      feeds it the stream, every byte once and in order, whatever the order
      of the rest ([parse_all_feeds_stream]); calls crash exactly on
      [HTTP_BOTH]; a change of direction forgets the parser's state; a call
      leaves the other direction's members alone.
    - Invariant: every reachable object is well formed
      ([object_reachable_wf]): the parser's type is a direction, each
      direction's state is reachable for the reassembly, header blocks are
      prefixes of [raw], the stored field name is lower-case, and the flags
      are only set once bytes of the direction were seen.
    - Sink: an exchange is suppressed exactly when a filter is configured
      and [pcre_exec] returns a negative code, and everything else starts
      with the address line that shows the addresses given to [set_addr]
      ([save_http_request_first]); the contents of the file and of the
      terminal output, byte for byte; the process is ended exactly when the
      file does not open; the file's name is the host as received.

    Every theorem with hypotheses is applied at a concrete input by a lemma
    named after it with the suffix [_witness]; the scenarios A, B and C of
    the specification are the examples [scenario_in_order],
    [scenario_reversed] and [scenario_gap] of file Reassembly.

    ** Bounds and fuel

    Sequence numbers are integers in [0, 2^32); every sum the source stores
    in a [uint32_t] goes through [wrap32].  Lengths are unbounded naturals
    ([size_t] is not modelled at its width: a string of 2^64 bytes does not
    exist).  The loop of lines 41-51 is [drain] with fuel; [drain_all] gives
    it the number of entries of the map, which is enough because every
    iteration that does not exit erases one entry ([drain_step_size],
    [drain_enough]): the result is the state at the exit of the source's
    loop, for every start state.  No other definition needs fuel.

    ** What is assumed, and what is not modelled

    The http_parser library is not modelled: the theorems hold for every
    instance of [TokenParser], of which they use only that callback data
    lies in the bytes given and that callbacks carry the parser's type.
    [http_parser_execute] is taken to make its callbacks while it runs and to
    go on after each of them, which is what it does when they return 0, as
    all six do ([call_returns_zero]).  The pointer [at] of a callback is an
    offset into [raw], and the C string at [at] ends at the first NUL of
    [raw] or at its end, where [c_str()] puts one.  [gzip_decompress],
    [is_plain_text], [pcre_exec] and the escape sequences are parameters.
    Files are modelled by whether the one named opens.  The header
    custom_parser.h is not under src/: the fields of [packet_info] and the
    data members of [custom_parser] are the ones src/custom_parser.cpp
    reads and writes, with the types it uses them at.  The capture of
    packets, the table of flows and the command line are not in
    src/custom_parser.cpp and not modelled; the development starts from the
    sequence of calls they make. *)

From Stdlib Require Import ZArith Lia.
From Stdlib Require Export Strings.Byte.
From Stdlib Require Strings.String.
Export Strings.String.StringSyntax.
From stdpp Require Export base tactics option list.

#[global] Open Scope Z_scope.

(** ** Machine integers: [uint32_t] as [Z] with its wrap-around written out *)

Definition u32_modulus : Z := 2 ^ 32.

(** Conversion of a wider unsigned value to [uint32_t]. *)
Definition wrap32 (z : Z) : Z := z mod u32_modulus.

Definition is_u32 (z : Z) : Prop := 0 <= z < u32_modulus.

(** [uint32_t a; a + n] stored back into a [uint32_t]. *)
Definition u32_add (a n : Z) : Z := wrap32 (a + n).

Declare Scope u32_scope.
Delimit Scope u32_scope with u32.
Notation "a +32 n" := (u32_add a n) (at level 50, left associativity) : u32_scope.

#[export] Instance is_u32_dec z : Decision (is_u32 z).
Proof. unfold is_u32. apply _. Defined.

(** ** Bytes and [std::string] contents *)

Abbreviation bytes := (list byte).

#[export] Instance byte_eq_dec : EqDecision byte := Byte.byte_eq_dec.

(** The value of a [char] read as [unsigned char]. *)
Definition byte_val (b : byte) : Z := Z.of_N (Byte.to_N b).

(** Conversion of an [int] to [char]: the low eight bits. *)
Definition byte_of_Z (z : Z) : byte :=
  default x00 (Byte.of_N (Z.to_N (z mod 256))).

(** A string literal of the source as bytes. *)
Definition lit (s : String.string) : bytes := String.list_byte_of_string s.
Arguments lit s%_string_scope.

(** [std::string::size], as the [size_t] it returns. *)
Definition size_of (s : bytes) : Z := Z.of_nat (length s).

(** ** Automation shared by the components *)

(** [httpflow]: range facts for [auto]; [u32]: rewriting of 32-bit sums and
    of lengths; [members]: reads of the members of the class behind writes
    (filled in file Exchange). *)
Create HintDb httpflow discriminated.
Create Rewrite HintDb u32.
Create Rewrite HintDb members.

(** Case analysis on the head [if]/[match] scrutinee of the goal, the way the
    source's guards split a handler. *)
Ltac case_cond :=
  match goal with
  | |- context [decide ?P] => destruct (decide P)
  | |- context [bool_decide ?P] => destruct (bool_decide_reflect P)
  | |- context [match ?x with _ => _ end] => destruct x eqn:?
  end.

Ltac case_conds := repeat (case_cond; simplify_eq/=; try done; try lia).

(** Closes a hypothesis of a theorem applied to concrete data: the
    definitions evaluate, and what is left is decided. *)
Ltac concrete :=
  first [ done
        | by vm_compute
        | by apply (bool_decide_unpack _); vm_compute
        | vm_compute; first [ lia | discriminate | by eexists | intros; discriminate ] ].

(** Unfolds the range predicate wherever it stands and calls [lia]. *)
Ltac u32_lia := unfold is_u32, u32_add, wrap32, u32_modulus, size_of in *; lia.

(** ** Lemmas on 32-bit wrap-around *)

Lemma u32_modulus_eq : u32_modulus = 4294967296.
Proof. reflexivity. Qed.

Lemma wrap32_range z : is_u32 (wrap32 z).
Proof. apply Z.mod_pos_bound. reflexivity. Qed.

Lemma wrap32_small z : is_u32 z -> wrap32 z = z.
Proof. apply Z.mod_small. Qed.

Lemma wrap32_idemp z : wrap32 (wrap32 z) = wrap32 z.
Proof. apply wrap32_small, wrap32_range. Qed.

Lemma wrap32_add_l a b : wrap32 (wrap32 a + b) = wrap32 (a + b).
Proof. unfold wrap32. apply Zplus_mod_idemp_l. Qed.

Lemma wrap32_add_r a b : wrap32 (a + wrap32 b) = wrap32 (a + b).
Proof. unfold wrap32. apply Zplus_mod_idemp_r. Qed.

Lemma u32_add_range a n : is_u32 (u32_add a n).
Proof. apply wrap32_range. Qed.

Lemma u32_add_small a n : is_u32 (a + n) -> u32_add a n = a + n.
Proof. apply wrap32_small. Qed.

Lemma u32_add_add a n m : u32_add (u32_add a n) m = u32_add a (n + m).
Proof. unfold u32_add. rewrite wrap32_add_l. f_equal. lia. Qed.

Lemma u32_add_0 a : is_u32 a -> u32_add a 0 = a.
Proof. intros. rewrite u32_add_small; [lia|]. by rewrite Z.add_0_r. Qed.

(** The only way an addition of a length that fits yields zero is to land
    exactly on the modulus. *)
Lemma u32_add_zero_iff a n :
  is_u32 a -> 0 <= n < u32_modulus ->
  u32_add a n = 0 <-> (a + n = 0 \/ a + n = u32_modulus).
Proof.
  intros Ha Hn. unfold u32_add, wrap32. split.
  - intros H. apply Z.mod_divide in H; [|done]. destruct H as [k Hk]. u32_lia.
  - intros [->| ->]; [done|]. apply Z.mod_same. done.
Qed.

#[export] Hint Resolve wrap32_range u32_add_range : httpflow.
#[export] Hint Rewrite wrap32_idemp wrap32_add_l wrap32_add_r u32_add_add : u32.

(** ** Lemmas on bytes *)

Lemma byte_val_range b : 0 <= byte_val b < 256.
Proof.
  unfold byte_val. pose proof (Byte.to_N_bounded b). lia.
Qed.

Lemma byte_of_Z_val b : byte_of_Z (byte_val b) = b.
Proof.
  unfold byte_of_Z. rewrite Z.mod_small by apply byte_val_range.
  unfold byte_val. by rewrite N2Z.id, Byte.of_to_N.
Qed.

Lemma byte_val_of_Z z : byte_val (byte_of_Z z) = z mod 256.
Proof.
  unfold byte_of_Z, byte_val.
  pose proof (Z.mod_pos_bound z 256 eq_refl) as Hr.
  destruct (Byte.of_N (Z.to_N (z mod 256))) as [b|] eqn:E; simpl.
  - apply Byte.to_of_N in E. rewrite E. lia.
  - apply Byte.of_N_None_iff in E. lia.
Qed.

Lemma byte_val_inj a b : byte_val a = byte_val b -> a = b.
Proof.
  intros H. rewrite <-(byte_of_Z_val a), <-(byte_of_Z_val b). by rewrite H.
Qed.

(** ** Lemmas on [std::string] operations *)

Lemma size_of_nonneg s : 0 <= size_of s.
Proof. unfold size_of. lia. Qed.

Lemma size_of_app s t : size_of (s ++ t) = size_of s + size_of t.
Proof. unfold size_of. rewrite length_app. lia. Qed.

Lemma size_of_nil_iff s : size_of s = 0 <-> s = [].
Proof. unfold size_of. destruct s; simpl; split; intros; try done; lia. Qed.

Lemma size_of_pos (s : bytes) : s ≠ [] → 0 < size_of s.
Proof. unfold size_of. destruct s; [done|simpl; lia]. Qed.

(** Appending to a string keeps what was there: the suffix that starts at
    the old size is exactly what was appended. *)
Lemma drop_size_app (s t : bytes) : drop (length s) (s ++ t) = t.
Proof. by rewrite drop_app_length. Qed.

#[export] Hint Rewrite size_of_app : u32.
#[export] Hint Resolve size_of_nonneg : httpflow.
