(* ===== verification/CString.v ===== *)
(** * Characters and C strings as the callbacks use them

    The callbacks of src/custom_parser.cpp receive a pointer [at] into the
    buffer handed to [http_parser_execute] and a [length].  This file models
    what they do with them: [std::string::assign(at, length)] ([slice]), the
    C string that [std::strstr(at, ...)] scans, which runs to the first NUL
    and not to [length] ([cstr_at], [strstr]), and the loop of
    [on_header_field] that lower-cases ASCII letters by flipping bit 5
    ([lower_field]).  [slice], [until_nul], [cstr_at] and [strstr] model
    routines of the C and C++ libraries the callbacks call, not code of the
    repository; their lemmas say that the model is the routine meant.  The
    theorem of this file is about the loop: it equals the ASCII [tolower]
    table [ascii_lower], which is written independently of the loop's guard,
    leaves no upper-case letter, keeps the length and is idempotent. *)

From Stdlib Require Import ZArith Lia.
From stdpp Require Import list.
From S2P Require Import Prelude.

#[local] Open Scope byte_scope.

(** ** Pointers into a buffer *)

(** [std::string(at, length)] for [at] pointing [pos] bytes into [buf].
    A range that leaves the buffer, which the C++ must not read, gives the
    bytes that are there; the token parser's law [execute_in_bounds] (file
    External) keeps the ranges of all callbacks inside the buffer. *)
Definition slice (buf : bytes) (pos len : nat) : bytes := take len (drop pos buf).

(** The bytes of a NUL-terminated string: up to the first NUL byte, or to
    the end of the [std::string] buffer, where [c_str()] puts one. *)
Fixpoint until_nul (s : bytes) : bytes :=
  match s with
  | [] => []
  | c :: s' => if decide (c = x00) then [] else c :: until_nul s'
  end.

(** The C string a [const char *] denotes that points [pos] bytes into
    [buf.c_str()]. *)
Definition cstr_at (buf : bytes) (pos : nat) : bytes := until_nul (drop pos buf).

(** [std::strstr(hay, needle)]: the offset of the first occurrence of
    [needle] in [hay], [None] for the null pointer. *)
Fixpoint strstr (hay needle : bytes) : option nat :=
  if decide (needle `prefix_of` hay) then Some 0%nat
  else
    match hay with
    | [] => None
    | _ :: hay' => S <$> strstr hay' needle
    end.

(** ** Lower-casing of a header field name (lines 79-84) *)

(** [c >= 'A' && c <= 'Z'].  A [char] above 127 fails the test whether
    [char] is signed (it is negative) or unsigned (it is above ['Z']). *)
Definition is_upper (c : byte) : bool :=
  bool_decide (byte_val "A" ≤ byte_val c) && bool_decide (byte_val c ≤ byte_val "Z").

(** [c ^ (char) 0x20], stored back into a [char]. *)
Definition flip_case (c : byte) : byte := byte_of_Z (Z.lxor (byte_val c) 32).

(** One iteration of the loop at index [i]. *)
Definition lower_at (at_ : bytes) (i : nat) (field : bytes) : bytes :=
  match at_ !! i with
  | Some c => if is_upper c then <[i := flip_case c]> field else field
  | None => field
  end.

(** The loop [for (i = 0; i < length; ++i)], [n] iterations from [i]. *)
Fixpoint lower_loop (at_ : bytes) (i n : nat) (field : bytes) : bytes :=
  match n with
  | O => field
  | S n' => lower_loop at_ (S i) n' (lower_at at_ i field)
  end.

(** Lines 79-84: [temp_header_field.assign(at, length)] followed by the
    loop. *)
Definition lower_field (at_ : bytes) (length : nat) : bytes :=
  lower_loop at_ 0 length (take length at_).

(** ** Reference definitions *)

(** ASCII [tolower], as the table of the twenty-six letters it changes.
    It is written without the guard and the bit flip of the loop, so that
    the loop is compared with something it does not define. *)
Definition ascii_lower (c : byte) : byte :=
  match c with
  | "A" => "a" | "B" => "b" | "C" => "c" | "D" => "d" | "E" => "e"
  | "F" => "f" | "G" => "g" | "H" => "h" | "I" => "i" | "J" => "j"
  | "K" => "k" | "L" => "l" | "M" => "m" | "N" => "n" | "O" => "o"
  | "P" => "p" | "Q" => "q" | "R" => "r" | "S" => "s" | "T" => "t"
  | "U" => "u" | "V" => "v" | "W" => "w" | "X" => "x" | "Y" => "y"
  | "Z" => "z"
  | _ => c
  end.

(** [needle] occurs in [hay] at offset [i]. *)
Definition occurs_at (needle hay : bytes) (i : nat) : Prop :=
  needle `prefix_of` drop i hay ∧ (i ≤ length hay)%nat.

#[export] Instance occurs_at_dec needle hay i : Decision (occurs_at needle hay i).
Proof. unfold occurs_at. apply _. Defined.

(** ** Lemmas on slices and C strings *)

Section cstrings.
Implicit Types (buf s t hay needle : bytes) (pos len i : nat).

Lemma slice_length buf pos len :
  (pos + len ≤ length buf)%nat → length (slice buf pos len) = len.
Proof. intros H. unfold slice. rewrite length_take, length_drop. lia. Qed.

Lemma slice_app_l buf t pos len :
  (pos + len ≤ length buf)%nat → slice (buf ++ t) pos len = slice buf pos len.
Proof.
  intros H. unfold slice. rewrite drop_app_le by lia.
  rewrite take_app_le; [done|]. rewrite length_drop. lia.
Qed.

Lemma slice_all buf : slice buf 0 (length buf) = buf.
Proof. unfold slice. by rewrite drop_0, firstn_all. Qed.

Lemma until_nul_no_nul s : x00 ∉ until_nul s.
Proof.
  induction s as [|c s IH]; simpl; [by apply not_elem_of_nil|].
  case_decide; [by apply not_elem_of_nil|]. apply not_elem_of_cons. auto.
Qed.

Lemma until_nul_prefix s : until_nul s `prefix_of` s.
Proof.
  induction s as [|c s IH]; simpl; [done|].
  case_decide; [apply prefix_nil|by apply prefix_cons].
Qed.

Lemma until_nul_id s : x00 ∉ s → until_nul s = s.
Proof.
  induction s as [|c s IH]; simpl; [done|]. intros [Hc Hs]%not_elem_of_cons.
  rewrite decide_False by done. by rewrite IH.
Qed.

Lemma until_nul_app s t : x00 ∉ s → until_nul (s ++ t) = s ++ until_nul t.
Proof.
  induction s as [|c s IH]; simpl; [done|]. intros [Hc Hs]%not_elem_of_cons.
  rewrite decide_False by done. by rewrite IH.
Qed.

(** The C string at [pos] does not stop at the [length] a callback is
    given: it runs on through whatever follows in the buffer. *)
Lemma cstr_at_app buf t pos :
  (pos ≤ length buf)%nat → x00 ∉ drop pos buf →
  cstr_at (buf ++ t) pos = drop pos buf ++ until_nul t.
Proof.
  intros Hpos Hnul. unfold cstr_at. rewrite drop_app_le by done.
  by apply until_nul_app.
Qed.

Lemma strstr_nil_r hay : strstr hay [] = Some 0%nat.
Proof. by destruct hay. Qed.

Lemma strstr_cons c hay needle :
  strstr (c :: hay) needle =
    if decide (needle `prefix_of` c :: hay) then Some 0%nat
    else S <$> strstr hay needle.
Proof. done. Qed.

Lemma strstr_occurs hay needle i : strstr hay needle = Some i → occurs_at needle hay i.
Proof.
  revert i. induction hay as [|c hay IH]; intros i; simpl.
  - case_decide; [|done]. intros [= <-]. by split.
  - case_decide; [intros [= <-]; split; [done|simpl; lia]|].
    intros (j & Hj & ->)%fmap_Some. destruct (IH _ Hj). split; [done|simpl; lia].
Qed.

Lemma strstr_first hay needle i j :
  strstr hay needle = Some i → occurs_at needle hay j → (i ≤ j)%nat.
Proof.
  revert i j. induction hay as [|c hay IH]; intros i j; simpl.
  - case_decide; [intros [= <-]; lia|done].
  - case_decide as Hp; [intros [= <-]; lia|].
    intros (i' & Hi' & ->)%fmap_Some [Hocc Hj]. destruct j as [|j]; [done|].
    simpl in *. apply le_n_S, IH; [done|]. split; [done|lia].
Qed.

Lemma strstr_complete hay needle j :
  occurs_at needle hay j → is_Some (strstr hay needle).
Proof.
  revert j. induction hay as [|c hay IH]; intros j [Hocc Hj]; simpl.
  - destruct j; [|simpl in Hj; lia]. rewrite decide_True by done. eauto.
  - case_decide; [eauto|]. destruct j as [|j]; [done|].
    destruct (IH j) as [i Hi]; [split; [done|simpl in Hj; lia]|].
    rewrite Hi. simpl. eauto.
Qed.

End cstrings.

(** ** Lemmas on the lower-casing loop *)

Section lowercase.
Implicit Types (c : byte) (s field : bytes) (i n : nat).

Lemma flip_case_upper c : is_upper c = true → flip_case c = byte_of_Z (byte_val c + 32).
Proof. destruct c; vm_compute; (reflexivity || discriminate). Qed.

Lemma ascii_lower_not_upper c : is_upper (ascii_lower c) = false.
Proof. destruct c; vm_compute; reflexivity. Qed.

Lemma ascii_lower_idemp c : ascii_lower (ascii_lower c) = ascii_lower c.
Proof. destruct c; vm_compute; reflexivity. Qed.

(** The guard and the bit flip of the loop, byte by byte against the
    table: all 256 cases are computed. *)
Lemma ascii_lower_flip c : ascii_lower c = if is_upper c then flip_case c else c.
Proof. destruct c; vm_compute; reflexivity. Qed.

Lemma length_lower_at s i field : length (lower_at s i field) = length field.
Proof.
  unfold lower_at. destruct (s !! i); [|done].
  destruct (is_upper _); [apply length_insert|done].
Qed.

(** The loop touches the positions from [i] on and nothing before. *)
Lemma lower_loop_spec s i n (pre : bytes) :
  length pre = i → (i + n ≤ length s)%nat →
  lower_loop s i n (pre ++ drop i s) =
    pre ++ (ascii_lower <$> take n (drop i s)) ++ drop (i + n) s.
Proof.
  revert i pre. induction n as [|n IH]; intros i pre Hpre Hn; simpl.
  { by rewrite Nat.add_0_r. }
  destruct (lookup_lt_is_Some_2 s i) as [c Hc]; [lia|].
  rewrite (drop_S _ _ _ Hc). simpl.
  assert (lower_at s i (pre ++ c :: drop (S i) s) =
          (pre ++ [ascii_lower c]) ++ drop (S i) s) as ->.
  { unfold lower_at. rewrite Hc, ascii_lower_flip, <-app_assoc. simpl.
    destruct (is_upper c); [|done].
    rewrite insert_app_r_alt by lia. by rewrite Hpre, Nat.sub_diag. }
  rewrite IH by (rewrite ?length_app; simpl; lia).
  rewrite <-app_assoc. simpl. by rewrite Nat.add_succ_r.
Qed.

End lowercase.

(** ** Properties of the string routines *)

Section cstring_properties.
Implicit Types (c : byte) (s hay needle : bytes) (i n : nat).

Lemma lower_loop_ext s1 s2 i n (field : bytes) :
  (∀ j, (i ≤ j < i + n)%nat → s1 !! j = s2 !! j) →
  lower_loop s1 i n field = lower_loop s2 i n field.
Proof.
  revert i field. induction n as [|n IH]; intros i field Hs; simpl; [done|].
  assert (lower_at s1 i field = lower_at s2 i field) as ->
    by (unfold lower_at; by rewrite (Hs i) by lia).
  apply IH. intros j Hj. apply Hs. lia.
Qed.

Lemma lower_loop_add s i n m (field : bytes) :
  lower_loop s i (n + m) field = lower_loop s (i + n) m (lower_loop s i n field).
Proof.
  revert i field. induction n as [|n IH]; intros i field; simpl.
  - by rewrite Nat.add_0_r.
  - by rewrite IH, Nat.add_succ_r.
Qed.

(** Iterations past the end of the buffer read nothing and change nothing. *)
Lemma lower_loop_beyond s i n (field : bytes) :
  (length s ≤ i)%nat → lower_loop s i n field = field.
Proof.
  revert i field. induction n as [|n IH]; intros i field Hi; simpl; [done|].
  unfold lower_at. rewrite lookup_ge_None_2 by done. apply IH. lia.
Qed.

Lemma lower_field_map s n : lower_field s n = ascii_lower <$> take n s.
Proof.
  unfold lower_field. set (k := length (take n s)).
  assert (k = (n `min` length s)%nat) as Hk by apply length_take.
  replace n with (k + (n - k))%nat at 1 by lia. rewrite lower_loop_add. simpl.
  rewrite (lower_loop_ext s (take n s) 0 k (take n s)).
  - pose proof (lower_loop_spec (take n s) 0 k []) as H.
    simpl in H. rewrite drop_0 in H. rewrite H by done. subst k.
    rewrite drop_all, app_nil_r, firstn_all.
    destruct (decide (n ≤ length s)%nat).
    + by replace (n - length (take n s))%nat with 0%nat by lia.
    + apply lower_loop_beyond. lia.
  - intros j Hj. symmetry. apply lookup_take_lt. lia.
Qed.

(** C40. The loop of [on_header_field] (assign, then flip bit 5 of every
    byte between ['A'] and ['Z']) computes the ASCII lower-casing of the
    first [length] bytes of the field name, byte for byte: each of the
    twenty-six upper-case letters becomes its lower-case letter, as the
    table [ascii_lower] lists them, and every other byte is kept. *)
Theorem lower_field_is_tolower s n :
  lower_field s n = ascii_lower <$> take n s ∧
  length (lower_field s n) = (n `min` length s)%nat.
Proof.
  rewrite lower_field_map. split; [done|].
  by rewrite length_fmap, length_take.
Qed.

(** The stored field name is in normal form: it holds no upper-case
    ASCII letter, and lower-casing it again changes nothing. *)
Lemma lower_field_normal s n :
  Forall (λ c, is_upper c = false) (lower_field s n) ∧
  lower_field (lower_field s n) (length (lower_field s n)) = lower_field s n.
Proof.
  rewrite !lower_field_map. split.
  - apply Forall_fmap, Forall_forall. intros c _. apply ascii_lower_not_upper.
  - rewrite firstn_all, <-list_fmap_compose. apply list_fmap_ext.
    intros _ c _. apply ascii_lower_idemp.
Qed.

(** The model of the library routine is the one meant: [strstr] returns
    the offset of the first occurrence of the needle, and the null pointer
    exactly when there is none. *)
Lemma strstr_first_occurrence hay needle :
  match strstr hay needle with
  | Some i => occurs_at needle hay i ∧ ∀ j, occurs_at needle hay j → (i ≤ j)%nat
  | None => ∀ j, ¬ occurs_at needle hay j
  end.
Proof.
  destruct (strstr hay needle) as [i|] eqn:E.
  - split; [by apply strstr_occurs|]. intros j. by apply strstr_first.
  - intros j Hj. apply strstr_complete in Hj. rewrite E in Hj. by destruct Hj.
Qed.

End cstring_properties.

(** ** Concrete strings *)

Section cstring_examples.

Example lower_field_host : lower_field (lit "Host: example") 4 = lit "host".
Proof. vm_compute. reflexivity. Qed.

Example lower_field_content_encoding :
  lower_field (lit "Content-Encoding") 16 = lit "content-encoding".
Proof. vm_compute. reflexivity. Qed.

Example strstr_gzip : strstr (lit "x-gzip, deflate") (lit "gzip") = Some 2%nat.
Proof. vm_compute. reflexivity. Qed.

Example strstr_absent : strstr (lit "identity") (lit "gzip") = None.
Proof. vm_compute. reflexivity. Qed.

End cstring_examples.
