(* ===== verification/Reassembly.v ===== *)
(** * Stream reassembly: the per-direction segment buffer of [custom_parser::parse]

    Models lines 28-51 of src/custom_parser.cpp: the three per-direction
    members [raw], [next_seq] and [out_of_order_packet] (here one [stream]
    record per direction), the accept/ignore/buffer decision taken on a
    captured segment, and the loop that drains buffered segments once the gap
    before them has closed.  Theorems: the loop terminates with the fuel
    chosen, what each branch does to the state, the invariants every call
    preserves, and conservation of bytes. *)

From Stdlib Require Import ZArith Lia.
From stdpp Require Import gmap.
From S2P Require Import Prelude.

(** ** Data *)

(** The fields of [struct packet_info] that [parse] reads: the TCP sequence
    number ([uint32_t]) and the payload. *)
Record packet_info := Packet { seq : Z; body : bytes }.

#[export] Instance packet_info_eq_dec : EqDecision packet_info.
Proof. solve_decision. Defined.

(** The members [raw[t]], [next_seq[t]] and [out_of_order_packet[t]] of one
    direction [t].  [next_seq = 0] is the constructor's value and doubles as
    the "no segment seen yet" mark. *)
Record stream := Stream {
  raw : bytes;
  next_seq : Z;
  out_of_order_packet : gmap Z bytes
}.

#[export] Instance stream_eq_dec : EqDecision stream.
Proof. solve_decision. Defined.

(** The constructor's state for one direction. *)
Definition stream_init : stream :=
  {| raw := []; next_seq := 0; out_of_order_packet := ∅ |}.

(** The state of a direction that has reassembled [r0], expects [a] and
    has nothing waiting. *)
Definition expecting (r0 : bytes) (a : Z) : stream :=
  {| raw := r0; next_seq := a; out_of_order_packet := ∅ |}.

(** ** Operations *)

(** [std::map::insert(std::make_pair(k, v))]: a key that is already present
    keeps its old value. *)
Definition map_insert_pair (k : Z) (v : bytes) (m : gmap Z bytes) : gmap Z bytes :=
  match m !! k with
  | Some _ => m
  | None => <[k:=v]> m
  end.

(** The [else] branch at lines 37-40: append the payload, and expect the
    sequence number that follows it. *)
Definition append_segment (pkt : packet_info) (s : stream) : stream :=
  {| raw := raw s ++ body pkt;
     next_seq := u32_add (seq pkt) (size_of (body pkt));
     out_of_order_packet := out_of_order_packet s |}.

(** Line 35: keep a segment that is ahead of the expected sequence number. *)
Definition buffer_segment (pkt : packet_info) (s : stream) : stream :=
  {| raw := raw s;
     next_seq := next_seq s;
     out_of_order_packet :=
       map_insert_pair (seq pkt) (body pkt) (out_of_order_packet s) |}.

(** Lines 30-40.  [None] is the early [return true] of line 33, taken for a
    segment below the expected sequence number (a retransmission); the state
    is then left as it was. *)
Definition accept_segment (pkt : packet_info) (s : stream) : option stream :=
  if decide (next_seq s ≠ 0 ∧ seq pkt ≠ next_seq s) then
    if decide (seq pkt < next_seq s) then None
    else Some (buffer_segment pkt s)
  else Some (append_segment pkt s).

(** One iteration of the loop at lines 41-51; [None] when the loop exits,
    by its condition (the map is empty) or by the [break]. *)
Definition drain_step (s : stream) : option stream :=
  if decide (size (out_of_order_packet s) = 0%nat) then None
  else
    match out_of_order_packet s !! next_seq s with
    | Some payload =>
        Some {| raw := raw s ++ payload;
                next_seq := u32_add (next_seq s) (size_of payload);
                out_of_order_packet := delete (next_seq s) (out_of_order_packet s) |}
    | None => None
    end.

(** The loop, bounded by [fuel] iterations. *)
Fixpoint drain (fuel : nat) (s : stream) : stream :=
  match fuel with
  | O => s
  | S fuel' =>
      match drain_step s with
      | Some s' => drain fuel' s'
      | None => s
      end
  end.

(** The loop as [parse] runs it: every iteration erases one entry, so the
    number of entries bounds the number of iterations. *)
Definition drain_all (s : stream) : stream :=
  drain (size (out_of_order_packet s)) s.

(** Lines 28-51 on the members of one direction: [None] for the early
    return, otherwise the state when control reaches line 54. *)
Definition absorb (pkt : packet_info) (s : stream) : option stream :=
  drain_all <$> accept_segment pkt s.

(** A sequence of segments delivered to one direction, in arrival order.
    A retransmission leaves the state as it is. *)
Definition absorb_keep (s : stream) (pkt : packet_info) : stream :=
  default s (absorb pkt s).

Definition absorb_all (pkts : list packet_info) (s : stream) : stream :=
  foldl absorb_keep s pkts.

(** ** Observers and invariants *)

(** Bytes waiting in [out_of_order_packet]. *)
Definition pending_size (m : gmap Z bytes) : Z :=
  map_fold (λ _ v acc, size_of v + acc) 0 m.

(** Bytes the direction holds: reassembled and waiting. *)
Definition stored_bytes (s : stream) : Z :=
  size_of (raw s) + pending_size (out_of_order_packet s).

(** Well-formedness: the sequence numbers held are [uint32_t] values. *)
Definition stream_wf (s : stream) : Prop :=
  is_u32 (next_seq s) ∧ map_Forall (λ k _, is_u32 k) (out_of_order_packet s).

#[export] Instance stream_wf_dec s : Decision (stream_wf s).
Proof. unfold stream_wf. apply _. Defined.

(** The state the loop leaves: nothing is buffered at the expected
    sequence number. *)
Definition drained (s : stream) : Prop :=
  out_of_order_packet s !! next_seq s = None.

#[export] Instance drained_dec s : Decision (drained s).
Proof. unfold drained. apply _. Defined.

(** ** The states of a direction

    The states [parse] can leave a direction in: the one the constructor
    sets up, and those a call makes of one of them. *)
Inductive reachable : stream → Prop :=
  | reachable_init : reachable stream_init
  | reachable_parse pkt s :
      reachable s → is_u32 (seq pkt) → reachable (absorb_keep s pkt).

(** ** Concrete segments *)

(** A payload of [n] bytes, all [c]. *)
Definition payload (n : nat) (c : byte) : bytes := replicate n c.

Definition seg1 := Packet 1000 (payload 50 "a").
Definition seg2 := Packet 1050 (payload 30 "b").
Definition seg3 := Packet 1100 (payload 20 "c").
Definition seg2_long := Packet 1050 (payload 50 "b").

(** The direction after the first segment, and with the third waiting. *)
Definition after_seg1 : stream := absorb_all [seg1] stream_init.
Definition after_seg1_seg3 : stream := absorb_all [seg1; seg3] stream_init.

(** ** [std::map::insert] of a pair *)

Section map_insert_pair.
Implicit Types (m : gmap Z bytes) (k : Z) (v : bytes).

Lemma map_insert_pair_fresh m k v :
  m !! k = None → map_insert_pair k v m = <[k:=v]> m.
Proof. unfold map_insert_pair. by intros ->. Qed.

Lemma map_insert_pair_present m k v :
  is_Some (m !! k) → map_insert_pair k v m = m.
Proof. unfold map_insert_pair. by intros [w ->]. Qed.

Lemma lookup_map_insert_pair m k v j :
  map_insert_pair k v m !! j =
    if decide (k = j) then Some (default v (m !! k)) else m !! j.
Proof.
  unfold map_insert_pair. destruct (m !! k) as [w|] eqn:E; case_decide;
    simplify_map_eq; done.
Qed.

Lemma lookup_map_insert_pair_ne m k v j :
  k ≠ j → map_insert_pair k v m !! j = m !! j.
Proof. intros. rewrite lookup_map_insert_pair. by rewrite decide_False. Qed.

Lemma map_insert_pair_is_Some m k v : is_Some (map_insert_pair k v m !! k).
Proof. rewrite lookup_map_insert_pair, decide_True by done. eauto. Qed.

Lemma size_delete_Some m k v :
  m !! k = Some v → size m = S (size (delete k m)).
Proof.
  intros Hk. rewrite map_size_delete_Some by eauto.
  assert (size m ≠ 0%nat) by (apply map_size_ne_0_lookup; eauto). lia.
Qed.

End map_insert_pair.

(** ** The drain loop *)

Section drain.
Implicit Types (s : stream) (n : nat).

(** The emptiness test of the loop condition never decides by itself: an
    empty map has no entry at the expected sequence number either. *)
Lemma drain_step_lookup s :
  drain_step s =
    (λ payload,
       {| raw := raw s ++ payload;
          next_seq := u32_add (next_seq s) (size_of payload);
          out_of_order_packet := delete (next_seq s) (out_of_order_packet s) |})
    <$> out_of_order_packet s !! next_seq s.
Proof.
  unfold drain_step. case_decide as Hsz; [|by destruct (_ !! _)].
  apply map_size_empty_inv in Hsz. by rewrite Hsz, lookup_empty.
Qed.

Lemma drain_step_None s : drain_step s = None ↔ drained s.
Proof.
  rewrite drain_step_lookup. unfold drained. by destruct (_ !! _).
Qed.

Lemma drain_step_Some s s' :
  drain_step s = Some s' ↔
  ∃ payload, out_of_order_packet s !! next_seq s = Some payload ∧
    s' = {| raw := raw s ++ payload;
            next_seq := u32_add (next_seq s) (size_of payload);
            out_of_order_packet := delete (next_seq s) (out_of_order_packet s) |}.
Proof.
  rewrite drain_step_lookup. destruct (_ !! _) as [p|]; simpl; split.
  - intros [= <-]. eauto.
  - by intros (? & [= <-] & ->).
  - done.
  - by intros (? & ? & _).
Qed.

(** Every iteration erases exactly one entry. *)
Lemma drain_step_size s s' :
  drain_step s = Some s' →
  size (out_of_order_packet s) = S (size (out_of_order_packet s')).
Proof.
  intros (p & Hp & ->)%drain_step_Some. simpl. by apply size_delete_Some in Hp.
Qed.

Lemma drain_unfold n s :
  drain (S n) s = match drain_step s with Some s' => drain n s' | None => s end.
Proof. done. Qed.

Lemma drain_fix n s : drain_step s = None → drain n s = s.
Proof. intros H. destruct n; simpl; by rewrite ?H. Qed.

(** More fuel than entries changes nothing. *)
Lemma drain_enough n s :
  (size (out_of_order_packet s) ≤ n)%nat → drain n s = drain_all s.
Proof.
  unfold drain_all. revert s. induction n as [|n IH]; intros s Hn.
  - by replace (size (out_of_order_packet s)) with 0%nat by lia.
  - destruct (drain_step s) as [s'|] eqn:E.
    + pose proof (drain_step_size _ _ E) as Hsz. rewrite Hsz. simpl.
      rewrite E. rewrite IH by lia. done.
    + by rewrite !drain_fix.
Qed.

Lemma drain_all_fix s : drain_step s = None → drain_all s = s.
Proof. apply drain_fix. Qed.

Lemma drain_all_step s s' :
  drain_step s = Some s' → drain_all s = drain_all s'.
Proof.
  intros E. unfold drain_all at 1. rewrite (drain_step_size _ _ E). simpl.
  by rewrite E.
Qed.

(** With the fuel [parse] needs, the loop has exited when [drain] returns:
    no further iteration is possible. *)
Lemma drain_exits n s :
  (size (out_of_order_packet s) ≤ n)%nat → drain_step (drain n s) = None.
Proof.
  revert s. induction n as [|n IH]; intros s Hn; simpl.
  - unfold drain_step. rewrite decide_True by lia. done.
  - destruct (drain_step s) as [s'|] eqn:E; [|done].
    apply IH. apply drain_step_size in E. lia.
Qed.

Lemma drain_all_drained s : drained (drain_all s).
Proof. apply drain_step_None. by apply drain_exits. Qed.

End drain.

(** ** The three branches of lines 30-40 *)

Section branches.
Implicit Types (s : stream) (pkt : packet_info).

Lemma accept_segment_first pkt s :
  next_seq s = 0 → accept_segment pkt s = Some (append_segment pkt s).
Proof. intros H. unfold accept_segment. rewrite decide_False; [done|]. tauto. Qed.

Lemma accept_segment_in_order pkt s :
  seq pkt = next_seq s → accept_segment pkt s = Some (append_segment pkt s).
Proof. intros H. unfold accept_segment. rewrite decide_False; [done|]. tauto. Qed.

Lemma accept_segment_below pkt s :
  next_seq s ≠ 0 → seq pkt < next_seq s → accept_segment pkt s = None.
Proof.
  intros H0 Hlt. unfold accept_segment.
  rewrite decide_True by (split; [done|lia]). by rewrite decide_True.
Qed.

Lemma accept_segment_ahead pkt s :
  next_seq s ≠ 0 → next_seq s < seq pkt →
  accept_segment pkt s = Some (buffer_segment pkt s).
Proof.
  intros H0 Hlt. unfold accept_segment.
  rewrite decide_True by (split; [done|lia]). by rewrite decide_False by lia.
Qed.

(** The branches are exhaustive: a segment is ignored exactly when it is
    below a non-zero expected sequence number. *)
Lemma accept_segment_None pkt s :
  accept_segment pkt s = None ↔ next_seq s ≠ 0 ∧ seq pkt < next_seq s.
Proof.
  split; [|intros []; by apply accept_segment_below].
  unfold accept_segment. repeat case_decide; naive_solver.
Qed.

Lemma absorb_None pkt s :
  absorb pkt s = None ↔ next_seq s ≠ 0 ∧ seq pkt < next_seq s.
Proof.
  unfold absorb. rewrite fmap_None. apply accept_segment_None.
Qed.

(** Buffering does not touch a drained state's expected entry, so the loop
    that follows has nothing to do. *)
Lemma buffer_segment_drained pkt s :
  drained s → seq pkt ≠ next_seq s → drained (buffer_segment pkt s).
Proof.
  unfold drained, buffer_segment. simpl. intros Hd Hne.
  by rewrite lookup_map_insert_pair_ne.
Qed.

(** On a drained state the loop has nothing to do after buffering. *)
Lemma absorb_ahead_buffers_eq pkt s :
  next_seq s ≠ 0 → next_seq s < seq pkt → drained s →
  absorb pkt s = Some (buffer_segment pkt s).
Proof.
  intros H0 Hlt Hd. unfold absorb. rewrite accept_segment_ahead by done.
  simpl. f_equal. apply drain_fix, drain_step_None.
  apply buffer_segment_drained; [done|lia].
Qed.

Lemma absorb_keep_first pkt s :
  next_seq s = 0 → out_of_order_packet s = ∅ →
  absorb_keep s pkt = append_segment pkt s.
Proof.
  intros Hn Hm. unfold absorb_keep, absorb.
  rewrite accept_segment_first by done. simpl.
  apply drain_fix, drain_step_None. unfold drained. simpl.
  by rewrite Hm, lookup_empty.
Qed.

Lemma absorb_keep_in_order pkt s :
  seq pkt = next_seq s → absorb_keep s pkt = drain_all (append_segment pkt s).
Proof.
  intros H. unfold absorb_keep, absorb. by rewrite accept_segment_in_order.
Qed.

Lemma absorb_keep_below pkt s :
  next_seq s ≠ 0 → seq pkt < next_seq s → absorb_keep s pkt = s.
Proof.
  intros H0 Hlt. unfold absorb_keep. by rewrite (proj2 (absorb_None pkt s)).
Qed.

Lemma absorb_keep_ahead pkt s :
  next_seq s ≠ 0 → next_seq s < seq pkt → drained s →
  absorb_keep s pkt = buffer_segment pkt s.
Proof.
  intros H0 Hlt Hd. unfold absorb_keep. by rewrite absorb_ahead_buffers_eq.
Qed.

End branches.

(** ** Invariants of [absorb] *)

Section invariants.
Implicit Types (s : stream) (pkt : packet_info).

Lemma drain_step_wf s s' : stream_wf s → drain_step s = Some s' → stream_wf s'.
Proof.
  intros [Hn Hm] (p & Hp & ->)%drain_step_Some. split; simpl.
  - auto with httpflow.
  - intros k v [_ Hk]%lookup_delete_Some. eauto.
Qed.

Lemma drain_wf n s : stream_wf s → stream_wf (drain n s).
Proof.
  revert s. induction n as [|n IH]; intros s Hwf; simpl; [done|].
  destruct (drain_step s) eqn:E; eauto using drain_step_wf.
Qed.

Lemma accept_segment_wf pkt s s' :
  stream_wf s → is_u32 (seq pkt) → accept_segment pkt s = Some s' → stream_wf s'.
Proof.
  intros [Hn Hm] Hseq. unfold accept_segment.
  repeat case_decide; intros; simplify_eq; split; simpl; auto with httpflow.
  intros k v. rewrite lookup_map_insert_pair. case_decide; naive_solver.
Qed.

Lemma drain_step_prefix s s' : drain_step s = Some s' → raw s `prefix_of` raw s'.
Proof. intros (p & _ & ->)%drain_step_Some. simpl. by apply prefix_app_r. Qed.

Lemma drain_prefix n s : raw s `prefix_of` raw (drain n s).
Proof.
  revert s. induction n as [|n IH]; intros s; simpl; [done|].
  destruct (drain_step s) eqn:E; [|done].
  etrans; [by apply drain_step_prefix|apply IH].
Qed.

Lemma accept_segment_prefix pkt s s' :
  accept_segment pkt s = Some s' → raw s `prefix_of` raw s'.
Proof.
  unfold accept_segment. repeat case_decide; intros; simplify_eq; simpl;
    [done|by apply prefix_app_r].
Qed.

Lemma absorb_keep_prefix s pkt : raw s `prefix_of` raw (absorb_keep s pkt).
Proof.
  unfold absorb_keep, absorb.
  destruct (accept_segment pkt s) as [s1|] eqn:E; simpl; [|done].
  etrans; [by eapply accept_segment_prefix|apply drain_prefix].
Qed.

End invariants.

(** ** Accounting of bytes *)

Section accounting.
Implicit Types (s : stream) (pkt : packet_info) (m : gmap Z bytes).

Lemma pending_size_empty : pending_size ∅ = 0.
Proof. unfold pending_size. by rewrite map_fold_empty. Qed.

Lemma pending_size_insert m k v :
  m !! k = None → pending_size (<[k:=v]> m) = size_of v + pending_size m.
Proof.
  intros Hk. unfold pending_size.
  rewrite map_fold_insert_L; [done| |done]. intros. lia.
Qed.

Lemma pending_size_delete m k v :
  m !! k = Some v → pending_size m = size_of v + pending_size (delete k m).
Proof.
  intros Hk. rewrite <-(insert_delete_id m k v) at 1 by done.
  apply pending_size_insert, lookup_delete_eq.
Qed.

Lemma pending_size_nonneg m : 0 <= pending_size m.
Proof.
  unfold pending_size. apply (map_fold_weak_ind (λ r _, 0 <= r)); [done|].
  intros k v m' r _ Hr. pose proof (size_of_nonneg v). lia.
Qed.

Lemma drain_step_stored s s' : drain_step s = Some s' → stored_bytes s' = stored_bytes s.
Proof.
  intros (p & Hp & ->)%drain_step_Some. unfold stored_bytes. simpl.
  rewrite size_of_app, (pending_size_delete _ _ _ Hp). lia.
Qed.

Lemma drain_stored n s : stored_bytes (drain n s) = stored_bytes s.
Proof.
  revert s. induction n as [|n IH]; intros s; simpl; [done|].
  destruct (drain_step s) eqn:E; [|done].
  rewrite IH. by apply drain_step_stored.
Qed.

Lemma append_segment_stored pkt s :
  stored_bytes (append_segment pkt s) = stored_bytes s + size_of (body pkt).
Proof. unfold stored_bytes. simpl. autorewrite with u32. lia. Qed.

Lemma buffer_segment_stored pkt s :
  stored_bytes (buffer_segment pkt s) =
    stored_bytes s +
    (if decide (is_Some (out_of_order_packet s !! seq pkt)) then 0
     else size_of (body pkt)).
Proof.
  unfold stored_bytes. simpl. case_decide as Hk.
  - rewrite map_insert_pair_present by done. lia.
  - apply eq_None_not_Some in Hk.
    rewrite map_insert_pair_fresh, pending_size_insert by done. lia.
Qed.

Lemma buffer_segment_stored_pending pkt s :
  pending_size (out_of_order_packet (buffer_segment pkt s)) =
    pending_size (out_of_order_packet s) +
    (if decide (is_Some (out_of_order_packet s !! seq pkt)) then 0
     else size_of (body pkt)).
Proof.
  pose proof (buffer_segment_stored pkt s) as H.
  unfold stored_bytes, buffer_segment in *. simpl in *. lia.
Qed.

End accounting.

(** ** Properties of the segment buffer *)

Section properties.
Implicit Types (s : stream) (pkt : packet_info).

(** C5. The loop of lines 41-51 terminates within as many iterations as
    [out_of_order_packet] has entries: when the model's loop stops, no entry
    is left at the expected sequence number, which is the exit condition of
    the source's loop, and running it with any larger bound gives the same
    state, so the bound loses nothing. *)
Theorem drain_all_exits s :
  drain_step (drain_all s) = None ∧ drained (drain_all s) ∧
  ∀ n, (size (out_of_order_packet s) ≤ n)%nat → drain n s = drain_all s.
Proof.
  assert (drain_step (drain_all s) = None) as H by by apply drain_exits.
  split_and!; [done|by apply drain_step_None|intros n; apply drain_enough].
Qed.

(** C8. A segment below a non-zero expected sequence number is a
    retransmission: [parse] returns at line 33 and the direction's state is
    left untouched, whatever the payload. *)
Theorem absorb_retransmission pkt s :
  next_seq s ≠ 0 → seq pkt < next_seq s →
  absorb pkt s = None ∧ absorb_keep s pkt = s.
Proof.
  intros H0 Hlt. assert (absorb pkt s = None) as H by by apply absorb_None.
  split; [done|]. unfold absorb_keep. by rewrite H.
Qed.

(** C11. The first segment a direction sees (expected sequence number still
    zero) is appended whatever its sequence number, and fixes the baseline:
    the next expected number is its sequence number plus its length, modulo
    2^32. *)
Theorem absorb_first_segment pkt :
  absorb pkt stream_init =
    Some {| raw := body pkt;
            next_seq := wrap32 (seq pkt + size_of (body pkt));
            out_of_order_packet := ∅ |}.
Proof.
  unfold absorb. rewrite accept_segment_first by done. simpl.
  by rewrite drain_all_fix.
Qed.

(** C10. A segment that carries the expected sequence number is appended
    right after the bytes already reassembled; whatever the loop drains
    afterwards comes behind it. *)
Theorem absorb_in_order pkt s :
  seq pkt = next_seq s →
  ∃ s' rest, absorb pkt s = Some s' ∧ raw s' = raw s ++ body pkt ++ rest.
Proof.
  intros Hseq. unfold absorb. rewrite accept_segment_in_order by done. simpl.
  destruct (drain_prefix (size (out_of_order_packet (append_segment pkt s)))
              (append_segment pkt s)) as [rest Hrest].
  exists (drain_all (append_segment pkt s)), rest. split; [done|].
  unfold drain_all. rewrite Hrest. simpl. by rewrite <-app_assoc.
Qed.

(** C9. A segment ahead of the expected sequence number is never appended:
    on a drained state the call succeeds, the reassembled bytes and the
    expected sequence number are the ones before, and the payload is stored
    in [out_of_order_packet] under the segment's sequence number unless
    that number already holds one. *)
Theorem absorb_ahead_buffers pkt s :
  next_seq s ≠ 0 → next_seq s < seq pkt → drained s →
  absorb pkt s =
    Some {| raw := raw s; next_seq := next_seq s;
            out_of_order_packet :=
              match out_of_order_packet s !! seq pkt with
              | Some _ => out_of_order_packet s
              | None => <[seq pkt := body pkt]> (out_of_order_packet s)
              end |}.
Proof.
  intros H0 Hlt Hd. by rewrite absorb_ahead_buffers_eq.
Qed.

(** C30. [out_of_order_packet] keeps the first payload stored under a
    sequence number: a second segment ahead with the same number is
    dropped. *)
Theorem absorb_ahead_duplicate pkt s :
  next_seq s ≠ 0 → next_seq s < seq pkt → drained s →
  is_Some (out_of_order_packet s !! seq pkt) →
  absorb pkt s = Some s.
Proof.
  intros H0 Hlt Hd Hk. rewrite absorb_ahead_buffers_eq by done.
  unfold buffer_segment. rewrite map_insert_pair_present by done.
  by destruct s.
Qed.

(** Whenever [parse] gets past the reassembly, the direction is drained
    and well formed. *)
Lemma absorb_wf_drained pkt s s' :
  stream_wf s → is_u32 (seq pkt) → absorb pkt s = Some s' →
  stream_wf s' ∧ drained s'.
Proof.
  unfold absorb. intros Hwf Hseq (s1 & Hacc & ->)%fmap_Some. split.
  - apply drain_wf. eauto using accept_segment_wf.
  - apply drain_all_drained.
Qed.

Lemma reachable_absorb_all pkts s :
  reachable s → Forall (λ pkt, is_u32 (seq pkt)) pkts → reachable (absorb_all pkts s).
Proof.
  intros Hr Hall. revert s Hr. unfold absorb_all.
  induction Hall as [|pkt pkts Hseq _ IH]; intros s Hr; simpl; [done|].
  by apply IH, reachable_parse.
Qed.

(** C3. Every state [parse] can leave a direction in, from the constructor
    on and whatever segments are captured, is well formed and drained: every
    sequence number held fits 32 bits, and nothing waits at the expected
    sequence number, so a stored segment is always one that [parse] could
    not append yet. *)
Theorem reachable_invariant s : reachable s → stream_wf s ∧ drained s.
Proof.
  induction 1 as [|pkt s _ [Hwf Hd] Hseq]; [by split|].
  unfold absorb_keep. destruct (absorb pkt s) as [s'|] eqn:E; simpl; [|done].
  by eapply absorb_wf_drained.
Qed.

(** C31. The reassembled stream is append-only: whatever segments arrive, in
    whatever order, the bytes reassembled before remain a prefix of the
    bytes reassembled after. *)
Theorem absorb_all_prefix pkts s : raw s `prefix_of` raw (absorb_all pkts s).
Proof.
  unfold absorb_all. revert s. induction pkts as [|pkt pkts IH]; intros s; simpl.
  - done.
  - etrans; [apply (absorb_keep_prefix s pkt)|apply IH].
Qed.

(** C32. No byte is lost or invented by the reassembly: the bytes held
    (reassembled plus waiting) grow by exactly the payload length, except
    for a segment ahead whose sequence number is already buffered, which is
    dropped whole. *)
Theorem absorb_stored_bytes pkt s s' :
  absorb pkt s = Some s' →
  stored_bytes s' =
    stored_bytes s +
    (if decide (next_seq s ≠ 0 ∧ seq pkt ≠ next_seq s ∧
                is_Some (out_of_order_packet s !! seq pkt))
     then 0 else size_of (body pkt)).
Proof.
  unfold absorb. intros (s1 & Hacc & ->)%fmap_Some.
  unfold drain_all. rewrite drain_stored. revert Hacc. unfold accept_segment.
  repeat case_decide; intros; simplify_eq;
    rewrite ?append_segment_stored, ?buffer_segment_stored;
    repeat case_decide; try done; tauto.
Qed.

End properties.

(** ** Runs on concrete segments *)

Section scenarios.

(** Two segments in order: 80 bytes reassembled, 1080 expected next,
    nothing waiting. *)
Example scenario_in_order :
  absorb_all [seg1; seg2] stream_init =
    {| raw := payload 50 "a" ++ payload 30 "b"; next_seq := 1080;
       out_of_order_packet := ∅ |}.
Proof. vm_compute. reflexivity. Qed.

(** The same two segments reversed: the later one is seen first and becomes
    the baseline, and the earlier one is then taken for a retransmission. *)
Example scenario_reversed :
  absorb_all [seg2; seg1] stream_init =
    {| raw := payload 30 "b"; next_seq := 1080; out_of_order_packet := ∅ |}
  ∧ absorb seg1 (absorb_all [seg2] stream_init) = None.
Proof. vm_compute. split; reflexivity. Qed.

(** A gap that closes: the segment ahead waits, then is drained behind the
    segment that fills the gap. *)
Example scenario_gap :
  absorb_all [seg1; seg3] stream_init =
    {| raw := payload 50 "a"; next_seq := 1050;
       out_of_order_packet := {[ 1100 := payload 20 "c" ]} |}
  ∧ absorb_all [seg1; seg3; seg2_long] stream_init =
    {| raw := payload 50 "a" ++ payload 50 "b" ++ payload 20 "c";
       next_seq := 1120; out_of_order_packet := ∅ |}.
Proof. vm_compute. split; reflexivity. Qed.

End scenarios.

(** ** The properties at concrete inputs *)

Section witnesses.

Lemma absorb_retransmission_witness :
  absorb seg1 after_seg1_seg3 = None ∧ absorb_keep after_seg1_seg3 seg1 = after_seg1_seg3.
Proof. apply absorb_retransmission; concrete. Defined.

Lemma absorb_in_order_witness :
  ∃ s' rest, absorb seg2_long after_seg1_seg3 = Some s' ∧
    raw s' = raw after_seg1_seg3 ++ body seg2_long ++ rest.
Proof. apply absorb_in_order. concrete. Defined.

Lemma absorb_ahead_buffers_witness :
  absorb seg3 after_seg1 =
    Some {| raw := payload 50 "a"; next_seq := 1050;
            out_of_order_packet := {[ 1100 := payload 20 "c" ]} |}.
Proof. apply (absorb_ahead_buffers seg3 after_seg1); concrete. Defined.

Lemma absorb_ahead_duplicate_witness :
  absorb (Packet 1100 (payload 7 "z")) after_seg1_seg3 = Some after_seg1_seg3.
Proof. apply absorb_ahead_duplicate; concrete. Defined.

Lemma reachable_invariant_witness :
  stream_wf after_seg1_seg3 ∧ drained after_seg1_seg3.
Proof.
  apply reachable_invariant, (reachable_absorb_all [seg1; seg3]);
    [apply reachable_init|by repeat constructor].
Defined.

Lemma absorb_stored_bytes_witness :
  stored_bytes (buffer_segment seg3 after_seg1) =
    stored_bytes after_seg1 +
    (if decide (next_seq after_seg1 ≠ 0 ∧ seq seg3 ≠ next_seq after_seg1 ∧
                is_Some (out_of_order_packet after_seg1 !! seq seg3))
     then 0 else size_of (body seg3)).
Proof. apply (absorb_stored_bytes seg3). concrete. Defined.

End witnesses.
