(* ===== verification/Ordering.v ===== *)
(** * Reassembly under reordering

    The segment buffer of [custom_parser::parse] (file Reassembly) run on the
    segments of one byte stream delivered in an arbitrary order.  A [chain]
    is the list of segments that cut a stream into consecutive non-empty
    pieces.  Once the expected sequence number stands at the start of a
    chain, the state after any set of its segments has arrived is determined
    by that set alone: [raw] holds the longest delivered prefix of the chain
    and [out_of_order_packet] exactly the delivered segments behind the first
    gap.  When every segment has arrived, in any order, [raw] is the whole
    stream. *)

From Stdlib Require Import ZArith Lia.
From stdpp Require Import gmap.
From S2P Require Import Prelude Reassembly.

(** ** Chains of segments *)

(** The bytes a list of segments carries, in list order. *)
Definition stream_of (ps : list packet_info) : bytes := mjoin (body <$> ps).

(** [chain a ps]: the segments [ps] are consecutive from sequence number
    [a], none of them empty. *)
Fixpoint chain (a : Z) (ps : list packet_info) : Prop :=
  match ps with
  | [] => True
  | p :: ps' => seq p = a ∧ body p ≠ [] ∧ chain (a + size_of (body p)) ps'
  end.

#[export] Instance chain_dec a ps : Decision (chain a ps).
Proof. revert a. induction ps; simpl; apply _. Defined.

(** The map entry a buffered segment occupies. *)
Definition entry (p : packet_info) : Z * bytes := (seq p, body p).

(** The segments of [post] whose sequence numbers are in [D], as the map
    [out_of_order_packet] holds them. *)
Definition pending_of (D : gset Z) (post : list packet_info) : gmap Z bytes :=
  list_to_map (entry <$> filter (λ p, seq p ∈ D) post).

(** The direction's state with [r] reassembled, [n] expected next, and the
    segments of [post] delivered so far (those in [D]) waiting. *)
Definition chain_state (r : bytes) (n : Z) (D : gset Z)
    (post : list packet_info) : stream :=
  {| raw := r; next_seq := n; out_of_order_packet := pending_of D post |}.

(** The first segment of [post], if any, has not been delivered. *)
Definition gap_at (D : gset Z) (post : list packet_info) : Prop :=
  match post with
  | [] => True
  | p :: _ => seq p ∉ D
  end.

(** The sequence numbers of a list of deliveries. *)
Definition delivered (qs : list packet_info) : gset Z := list_to_set (seq <$> qs).

(** What the buffer promises about a chain [ps] that starts where the
    reassembled bytes [r0] end, after the segments with numbers in [D] have
    been delivered: [raw] is [r0] followed by the delivered prefix of the
    chain up to its first gap, and the delivered segments behind the gap
    wait in [out_of_order_packet]. *)
Definition reassembled (r0 : bytes) (a : Z) (ps : list packet_info)
    (D : gset Z) (s : stream) : Prop :=
  ∃ pre post,
    ps = pre ++ post ∧ Forall (λ p, seq p ∈ D) pre ∧ gap_at D post ∧
    s = chain_state (r0 ++ stream_of pre) (a + size_of (stream_of pre)) D post.

(** ** Lemmas on chains *)

Section chains.
Implicit Types (a n : Z) (p q : packet_info) (ps pre post : list packet_info).

Lemma stream_of_cons p ps : stream_of (p :: ps) = body p ++ stream_of ps.
Proof. done. Qed.

Lemma stream_of_app pre post : stream_of (pre ++ post) = stream_of pre ++ stream_of post.
Proof. unfold stream_of. by rewrite fmap_app, join_app. Qed.

Lemma stream_of_snoc pre p : stream_of (pre ++ [p]) = stream_of pre ++ body p.
Proof. rewrite stream_of_app, stream_of_cons. by rewrite app_nil_r. Qed.

Lemma chain_seq_ge a ps p : chain a ps → p ∈ ps → a ≤ seq p.
Proof.
  revert a. induction ps as [|p' ps IH]; intros a Hc Hin; [by inversion Hin|].
  destruct Hc as (Hs & Hb & Hc). apply elem_of_cons in Hin as [->|Hin]; [lia|].
  apply IH in Hc; [|done]. pose proof (size_of_pos _ Hb). lia.
Qed.

Lemma chain_tail_gt a p ps q : chain a (p :: ps) → q ∈ ps → seq p < seq q.
Proof.
  intros (Hs & Hb & Hc) Hin. pose proof (chain_seq_ge _ _ _ Hc Hin).
  pose proof (size_of_pos _ Hb). lia.
Qed.

Lemma chain_head_fresh a p ps : chain a (p :: ps) → seq p ∉ seq <$> ps.
Proof.
  intros Hc (q & Hq & Hin)%list_elem_of_fmap.
  pose proof (chain_tail_gt _ _ _ _ Hc Hin). lia.
Qed.

Lemma chain_NoDup a ps : chain a ps → NoDup (seq <$> ps).
Proof.
  revert a. induction ps as [|p ps IH]; intros a Hc; [constructor|].
  rewrite fmap_cons. constructor; [by eapply chain_head_fresh|].
  destruct Hc as (_ & _ & Hc). eauto.
Qed.

Lemma chain_app a pre post :
  chain a (pre ++ post) ↔ chain a pre ∧ chain (a + size_of (stream_of pre)) post.
Proof.
  revert a. induction pre as [|p pre IH]; intros a; simpl.
  - unfold stream_of, size_of. simpl. rewrite Z.add_0_r. tauto.
  - rewrite IH, stream_of_cons, size_of_app, Z.add_assoc. tauto.
Qed.

(** A segment of a chain is identified by its sequence number. *)
Lemma chain_seq_inj a ps p q : chain a ps → p ∈ ps → q ∈ ps → seq p = seq q → p = q.
Proof.
  revert a. induction ps as [|p' ps IH]; intros a Hc Hp Hq Heq; [by inversion Hp|].
  apply elem_of_cons in Hp as [->|Hp]; apply elem_of_cons in Hq as [->|Hq]; [done|..].
  - pose proof (chain_tail_gt _ _ _ _ Hc Hq). lia.
  - pose proof (chain_tail_gt _ _ _ _ Hc Hp). lia.
  - destruct Hc as (_ & _ & Hc). eauto.
Qed.

End chains.

(** ** Lemmas on the waiting segments *)

Section pending.
Implicit Types (D : gset Z) (p q : packet_info) (post : list packet_info).

Lemma pending_of_nil D : pending_of D [] = ∅.
Proof. done. Qed.

Lemma pending_of_cons_in D p post :
  seq p ∈ D → pending_of D (p :: post) = <[seq p := body p]> (pending_of D post).
Proof. intros H. unfold pending_of. by rewrite filter_cons_True. Qed.

Lemma pending_of_cons_out D p post :
  seq p ∉ D → pending_of D (p :: post) = pending_of D post.
Proof. intros H. unfold pending_of. by rewrite filter_cons_False. Qed.

Lemma lookup_pending_of_absent D post k :
  k ∉ seq <$> post → pending_of D post !! k = None.
Proof.
  intros Hk. apply not_elem_of_list_to_map_1. intros Hin. apply Hk.
  rewrite <-list_fmap_compose in Hin.
  apply list_elem_of_fmap in Hin as (p & -> & [_ Hp]%list_elem_of_filter).
  by apply list_elem_of_fmap_2.
Qed.

Lemma lookup_pending_of_undelivered D post k :
  k ∉ D → pending_of D post !! k = None.
Proof.
  intros Hk. apply not_elem_of_list_to_map_1. intros Hin. apply Hk.
  rewrite <-list_fmap_compose in Hin.
  by apply list_elem_of_fmap in Hin as (p & -> & [Hp _]%list_elem_of_filter).
Qed.

Lemma pending_of_empty post : pending_of ∅ post = ∅.
Proof.
  apply map_eq. intros k. rewrite lookup_empty.
  apply lookup_pending_of_undelivered. set_solver.
Qed.

Lemma pending_of_deliver_absent D post k :
  k ∉ seq <$> post → pending_of ({[k]} ∪ D) post = pending_of D post.
Proof.
  induction post as [|p post IH]; intros Hk; [done|].
  rewrite fmap_cons, not_elem_of_cons in Hk. destruct Hk as [Hne Hk].
  destruct (decide (seq p ∈ D)).
  - rewrite !pending_of_cons_in by set_solver. by rewrite IH.
  - rewrite !pending_of_cons_out by set_solver. by rewrite IH.
Qed.

Lemma pending_of_deliver D post q :
  NoDup (seq <$> post) → q ∈ post → seq q ∉ D →
  pending_of ({[seq q]} ∪ D) post = <[seq q := body q]> (pending_of D post).
Proof.
  induction post as [|p post IH]; intros Hnd Hin Hq; [by inversion Hin|].
  rewrite fmap_cons in Hnd. apply NoDup_cons in Hnd as [Hp Hnd].
  apply elem_of_cons in Hin as [->|Hin].
  - rewrite pending_of_cons_in by set_solver.
    rewrite pending_of_cons_out by done. by rewrite pending_of_deliver_absent.
  - assert (seq p ≠ seq q) by (intros Heq; apply Hp; rewrite Heq;
      by apply list_elem_of_fmap_2).
    destruct (decide (seq p ∈ D)).
    + rewrite !pending_of_cons_in by set_solver. rewrite IH by done.
      by apply insert_insert_ne.
    + rewrite !pending_of_cons_out by set_solver. by apply IH.
Qed.

End pending.

(** ** The drain loop on a chain *)

Section drain_chain.
Implicit Types (D : gset Z) (r : bytes) (n : Z) (post : list packet_info).

Lemma chain_state_drained r n D p post :
  seq p = n → seq p ∉ D → drain_all (chain_state r n D (p :: post)) =
                           chain_state r n D (p :: post).
Proof.
  intros Hn Hp. apply drain_all_fix, drain_step_None. unfold drained. simpl.
  apply lookup_pending_of_undelivered. by rewrite <-Hn.
Qed.

Lemma chain_state_drain_step r n D p post :
  chain n (p :: post) → 0 ≤ n → n + size_of (body p) < u32_modulus → seq p ∈ D →
  drain_step (chain_state r n D (p :: post)) =
    Some (chain_state (r ++ body p) (n + size_of (body p)) D post).
Proof.
  intros Hc Hn Hend Hp. pose proof (chain_head_fresh _ _ _ Hc) as Hfresh.
  destruct Hc as (Hs & Hb & Hc). apply drain_step_Some. exists (body p).
  unfold chain_state. simpl. rewrite pending_of_cons_in, Hs by done.
  split; [by rewrite lookup_insert_eq|]. f_equal.
  - symmetry. apply u32_add_small. pose proof (size_of_nonneg (body p)). u32_lia.
  - rewrite delete_insert_id; [done|].
    apply lookup_pending_of_absent. by rewrite <-Hs.
Qed.

(** The loop moves the delivered segments that directly follow the expected
    sequence number into [raw], and stops at the first gap. *)
Lemma drain_chain_state r n D post :
  chain n post → 0 ≤ n → n + size_of (stream_of post) < u32_modulus →
  ∃ run rest,
    post = run ++ rest ∧ Forall (λ p, seq p ∈ D) run ∧ gap_at D rest ∧
    drain_all (chain_state r n D post) =
      chain_state (r ++ stream_of run) (n + size_of (stream_of run)) D rest.
Proof.
  revert r n. induction post as [|p post IH]; intros r n Hc Hn Hend.
  { exists [], []. repeat split; [done..|]. rewrite app_nil_r, Z.add_0_r.
    by apply drain_all_fix, drain_step_None. }
  rewrite stream_of_cons, size_of_app in Hend.
  pose proof (size_of_nonneg (stream_of post)).
  pose proof (size_of_nonneg (body p)).
  destruct (decide (seq p ∈ D)) as [Hp|Hp].
  - destruct (IH (r ++ body p) (n + size_of (body p)))
      as (run & rest & -> & Hrun & Hgap & Hdrain); [apply Hc|lia..|].
    exists (p :: run), rest. repeat split; [by constructor|done|].
    rewrite (drain_all_step _ _ (chain_state_drain_step r n D p _ Hc Hn
      ltac:(lia) Hp)), Hdrain.
    rewrite stream_of_cons, size_of_app, app_assoc. f_equal. lia.
  - exists [], (p :: post). repeat split; [done..|].
    rewrite app_nil_r, Z.add_0_r. apply chain_state_drained; [apply Hc|done].
Qed.

End drain_chain.

(** ** Delivery of the segments of a chain *)

Section delivery.
Context (r0 : bytes) (a : Z) (ps : list packet_info).
Context (Ha : 0 < a) (Hchain : chain a ps).
Context (Hend : a + size_of (stream_of ps) < u32_modulus).
Implicit Types (D : gset Z) (q : packet_info) (s : stream).

(** Lines 30-40 on a segment of the chain that has not been delivered yet:
    it is appended when it is the first missing one, buffered otherwise;
    it is never taken for a retransmission. *)
Lemma accept_segment_chain D pre post q :
  ps = pre ++ post → Forall (λ p, seq p ∈ D) pre → gap_at D post →
  q ∈ ps → seq q ∉ D →
  ∃ pre1 post1,
    ps = pre1 ++ post1 ∧ Forall (λ p, seq p ∈ {[seq q]} ∪ D) pre1 ∧
    accept_segment q
      (chain_state (r0 ++ stream_of pre) (a + size_of (stream_of pre)) D post) =
    Some (chain_state (r0 ++ stream_of pre1) (a + size_of (stream_of pre1))
            ({[seq q]} ∪ D) post1).
Proof.
  intros -> Hpre Hgap Hq HqD.
  assert (Forall (λ p, seq p ∈ {[seq q]} ∪ D) pre) as Hpre'
    by (eapply Forall_impl; [done|]; set_solver).
  apply elem_of_app in Hq as [Hq|Hq];
    [by rewrite Forall_forall in Hpre; apply Hpre in Hq|].
  apply chain_app in Hchain as [_ Hpost].
  rewrite stream_of_app, size_of_app in Hend.
  pose proof (size_of_nonneg (stream_of pre)).
  destruct post as [|p post]; [by inversion Hq|].
  rewrite stream_of_cons, size_of_app in Hend.
  pose proof (size_of_nonneg (stream_of post)).
  pose proof (size_of_nonneg (body p)).
  apply elem_of_cons in Hq as [->|Hq].
  - exists (pre ++ [p]), post. rewrite <-app_assoc. split; [done|].
    split; [apply Forall_app; split; [done|]; constructor; [set_solver|done]|].
    rewrite accept_segment_in_order by apply Hpost. f_equal.
    unfold append_segment, chain_state. simpl.
    rewrite stream_of_snoc, size_of_app, app_assoc. f_equal.
    + destruct Hpost as (-> & _). rewrite u32_add_small by u32_lia. lia.
    + rewrite pending_of_cons_out by done.
      by rewrite pending_of_deliver_absent by by eapply chain_head_fresh.
  - exists pre, (p :: post). do 2 (split; [done|]).
    pose proof (chain_tail_gt _ _ _ _ Hpost Hq).
    rewrite accept_segment_ahead; simpl; [|lia|destruct Hpost; lia].
    f_equal. unfold buffer_segment, chain_state. simpl. f_equal.
    rewrite map_insert_pair_fresh by by apply lookup_pending_of_undelivered.
    rewrite pending_of_deliver; [done| |by right|done].
    by eapply chain_NoDup.
Qed.

(** One delivery keeps the promise. *)
Lemma absorb_reassembled D s q :
  reassembled r0 a ps D s → q ∈ ps → seq q ∉ D →
  ∃ s', absorb q s = Some s' ∧ reassembled r0 a ps ({[seq q]} ∪ D) s'.
Proof.
  intros (pre & post & Hps & Hpre & Hgap & ->) Hq HqD.
  destruct (accept_segment_chain D pre post q)
    as (pre1 & post1 & Hps1 & Hpre1 & Hacc); [done..|].
  unfold absorb. rewrite Hacc. simpl. eexists. split; [done|].
  pose proof Hchain as Hc. rewrite Hps1 in Hc. apply chain_app in Hc as [_ Hc].
  pose proof Hend as He. rewrite Hps1, stream_of_app, size_of_app in He.
  pose proof (size_of_nonneg (stream_of pre1)).
  destruct (drain_chain_state (r0 ++ stream_of pre1)
    (a + size_of (stream_of pre1)) ({[seq q]} ∪ D) post1)
    as (run & rest & -> & Hrun & Hgap' & ->); [done|lia..|].
  exists (pre1 ++ run), rest. rewrite <-app_assoc. split; [done|].
  split; [by apply Forall_app|]. split; [done|].
  rewrite stream_of_app, size_of_app, app_assoc. f_equal. lia.
Qed.

(** Delivering [q] keeps the segments that follow it undelivered, when no
    two of them carry the same sequence number. *)
Lemma Forall_fresh_delivered D q qs :
  seq q ∉ seq <$> qs → Forall (λ q1, seq q1 ∉ D) qs →
  Forall (λ q1, seq q1 ∉ ({[seq q]} ∪ D : gset Z)) qs.
Proof.
  clear Ha Hchain Hend. intros Hq Hfresh.
  rewrite Forall_forall in Hfresh |- *. intros q1 Hq1.
  specialize (Hfresh _ Hq1). apply (list_elem_of_fmap_2 seq) in Hq1.
  intros [Heq%elem_of_singleton|?]%elem_of_union; [|done].
  apply Hq. by rewrite <-Heq.
Qed.

(** Any sequence of deliveries of distinct segments keeps it. *)
Lemma absorb_all_reassembled qs D s :
  reassembled r0 a ps D s → Forall (λ q, q ∈ ps) qs →
  NoDup (seq <$> qs) → Forall (λ q, seq q ∉ D) qs →
  reassembled r0 a ps (delivered qs ∪ D) (absorb_all qs s).
Proof.
  revert D s. induction qs as [|q qs IH]; intros D s Hs Hin Hnd Hfresh.
  { unfold delivered. simpl. by rewrite (left_id_L ∅ (∪)). }
  apply Forall_cons in Hin as [Hq Hin]. apply Forall_cons in Hfresh as [HqD Hfresh].
  rewrite fmap_cons in Hnd. apply NoDup_cons in Hnd as [Hq' Hnd].
  destruct (absorb_reassembled D s q) as (s' & Habs & Hs'); [done..|].
  assert (absorb_all (q :: qs) s = absorb_all qs s') as ->.
  { unfold absorb_all. simpl. unfold absorb_keep at 2. by rewrite Habs. }
  replace (delivered (q :: qs) ∪ D) with (delivered qs ∪ ({[seq q]} ∪ D))
    by (unfold delivered; set_solver).
  apply IH; [done..|]. by apply Forall_fresh_delivered.
Qed.

(** The promise holds before any segment of the chain has arrived. *)
Lemma reassembled_start :
  reassembled r0 a ps ∅ (expecting r0 a).
Proof.
  clear Ha Hchain Hend.
  exists [], ps. repeat split; [done|by destruct ps|].
  unfold chain_state, expecting. rewrite pending_of_empty, app_nil_r. f_equal.
  unfold stream_of, size_of. simpl. lia.
Qed.

(** When every segment has been delivered there is no gap left. *)
Lemma reassembled_complete D s :
  reassembled r0 a ps D s → Forall (λ p, seq p ∈ D) ps →
  s = expecting (r0 ++ stream_of ps) (a + size_of (stream_of ps)).
Proof.
  clear Ha Hchain Hend. intros (pre & [|p post] & -> & _ & Hgap & ->) Hall.
  - by rewrite app_nil_r.
  - apply Forall_app in Hall as [_ Hall]. by apply Forall_cons in Hall as [? _].
Qed.

(** All segments delivered, in any order. *)
Lemma absorb_all_complete qs :
  qs ≡ₚ ps →
  absorb_all qs (expecting r0 a) =
    expecting (r0 ++ stream_of ps) (a + size_of (stream_of ps)).
Proof.
  intros Hperm. apply (reassembled_complete (delivered qs ∪ ∅)).
  - apply absorb_all_reassembled.
    + by apply reassembled_start.
    + apply Forall_forall. intros q. by rewrite Hperm.
    + rewrite Hperm. by eapply chain_NoDup.
    + apply Forall_forall. set_solver.
  - apply Forall_forall. intros p Hp. unfold delivered.
    apply elem_of_union_l, elem_of_list_to_set, list_elem_of_fmap_2.
    by rewrite Hperm.
Qed.

End delivery.

(** ** Properties of reassembly under reordering *)

Section ordering_properties.
Implicit Types (a : Z) (p : packet_info) (ps qs : list packet_info).

(** C14. Gap tracking.  Let the segments [ps] be consecutive from the
    expected sequence number [a > 0], without wrap-around.  After any
    distinct segments [qs] of them have been delivered, in any order, [raw]
    is what it was followed by the delivered segments up to the first one
    still missing, and [out_of_order_packet] holds exactly the delivered
    segments behind that gap: a segment ahead is never appended before the
    gap in front of it is filled. *)
Theorem absorb_all_tracks_gap (r0 : bytes) a ps qs :
  0 < a → chain a ps → a + size_of (stream_of ps) < u32_modulus →
  Forall (λ q, q ∈ ps) qs → NoDup (seq <$> qs) →
  reassembled r0 a ps (delivered qs) (absorb_all qs (expecting r0 a)).
Proof.
  intros Ha Hc Hend Hin Hnd.
  rewrite <-(right_id_L ∅ (∪) (delivered qs)).
  apply absorb_all_reassembled;
    first [assumption|by apply reassembled_start|apply Forall_forall; set_solver].
Qed.

(** C1. Order independence.  Under the same conditions, any two orders in
    which all segments of the chain are delivered leave the direction in
    the same state: [raw] is the stream in sequence order, the expected
    sequence number stands behind it and nothing is left waiting. *)
Theorem absorb_all_any_order (r0 : bytes) a ps qs1 qs2 :
  0 < a → chain a ps → a + size_of (stream_of ps) < u32_modulus →
  qs1 ≡ₚ ps → qs2 ≡ₚ ps →
  absorb_all qs1 (expecting r0 a) = absorb_all qs2 (expecting r0 a) ∧
  absorb_all qs1 (expecting r0 a) =
    expecting (r0 ++ stream_of ps) (a + size_of (stream_of ps)).
Proof.
  intros Ha Hc Hend H1 H2. by rewrite !(absorb_all_complete r0 a ps) by done.
Qed.

(** A direction that has seen nothing takes the first segment it sees as
    the start of the stream; if that segment is indeed the first of the
    chain, the others may follow in any order and [raw] ends up as the whole
    stream. *)
Lemma absorb_all_from_head p ps qs :
  0 ≤ seq p → chain (seq p) (p :: ps) →
  seq p + size_of (stream_of (p :: ps)) < u32_modulus →
  qs ≡ₚ ps →
  absorb_all (p :: qs) stream_init =
    expecting (stream_of (p :: ps)) (seq p + size_of (stream_of (p :: ps))).
Proof.
  intros Hp (_ & Hb & Hc) Hend Hperm.
  rewrite stream_of_cons, size_of_app in *.
  pose proof (size_of_pos _ Hb). pose proof (size_of_nonneg (stream_of ps)).
  unfold absorb_all. simpl. rewrite absorb_keep_first by done.
  unfold append_segment. simpl. rewrite u32_add_small by u32_lia.
  fold (expecting (body p) (seq p + size_of (body p))).
  fold (absorb_all qs (expecting (body p) (seq p + size_of (body p)))).
  rewrite (absorb_all_complete _ _ ps) by (done || lia).
  f_equal. lia.
Qed.

(** C15. The baseline is whatever segment is seen first.  If the second
    segment of a stream overtakes the first, it becomes the start of [raw],
    and the first one is then below the expected sequence number: it is
    taken for a retransmission and its bytes never reach [raw], which is
    then not the stream. *)
Theorem absorb_all_late_head p1 p2 :
  0 ≤ seq p1 < seq p2 → seq p2 + size_of (body p2) < u32_modulus →
  absorb_all [p2; p1] stream_init =
    expecting (body p2) (seq p2 + size_of (body p2)) ∧
  (body p1 ≠ [] → raw (absorb_all [p2; p1] stream_init) ≠ stream_of [p1; p2]).
Proof.
  intros Hlt Hend. pose proof (size_of_nonneg (body p2)).
  assert (absorb_all [p2; p1] stream_init =
          expecting (body p2) (seq p2 + size_of (body p2))) as Heq.
  { unfold absorb_all. simpl. rewrite (absorb_keep_first p2 stream_init) by done.
    rewrite absorb_keep_below; unfold append_segment; simpl;
      rewrite u32_add_small by u32_lia; [done|lia..]. }
  split; [done|]. rewrite Heq. simpl. intros Hb Hraw%(f_equal length).
  rewrite !stream_of_cons, !length_app in Hraw.
  destruct (body p1); [done|]. simpl in Hraw. lia.
Qed.

End ordering_properties.

(** ** The properties at concrete inputs *)

Section ordering_witnesses.

Lemma absorb_all_tracks_gap_witness :
  reassembled (payload 50 "a") 1050 [seg2_long; seg3] (delivered [seg3])
    (absorb_all [seg3] (expecting (payload 50 "a") 1050)).
Proof.
  apply absorb_all_tracks_gap; concrete.
Defined.

Lemma absorb_all_any_order_witness :
  absorb_all [seg3; seg2_long] (expecting (payload 50 "a") 1050) =
  absorb_all [seg2_long; seg3] (expecting (payload 50 "a") 1050) ∧
  absorb_all [seg3; seg2_long] (expecting (payload 50 "a") 1050) =
    expecting (payload 50 "a" ++ stream_of [seg2_long; seg3])
      (1050 + size_of (stream_of [seg2_long; seg3])).
Proof. apply absorb_all_any_order; [concrete..|apply perm_swap|done]. Defined.

Lemma absorb_all_late_head_witness :
  absorb_all [seg2; seg1] stream_init =
    expecting (body seg2) (seq seg2 + size_of (body seg2)) ∧
  (body seg1 ≠ [] → raw (absorb_all [seg2; seg1] stream_init) ≠ stream_of [seg1; seg2]).
Proof. apply absorb_all_late_head; concrete. Defined.

End ordering_witnesses.
