(* ===== verification/Wraparound.v ===== *)
(** * Sequence-number arithmetic of the segment buffer

    [next_seq] is a [uint32_t] that is compared with plain [<] and whose
    value 0 means "no segment seen yet" (src/custom_parser.cpp, lines 7-8,
    30-31, 39 and 46).  This file states what that arithmetic guarantees and
    where it stops: the baseline [next_seq - raw.size()] is kept modulo 2^32
    by every call that does not start from the zero mark; without
    wrap-around the expected sequence number only grows, a segment delivered
    twice is ignored the second time, and an entry of [out_of_order_packet]
    that has fallen below [next_seq] is never erased; a stream that ends
    exactly on 2^32 sets [next_seq] back to the zero mark, after which a
    retransmitted segment is appended again. *)

From Stdlib Require Import ZArith Lia.
From stdpp Require Import gmap.
From S2P Require Import Prelude Reassembly.

(** ** Observers *)

(** The sequence number of the first byte of [raw], modulo 2^32. *)
Definition baseline (s : stream) : Z := wrap32 (next_seq s - size_of (raw s)).

(** No sequence number the direction can reach with the bytes it holds
    wraps around. *)
Definition no_wrap (s : stream) : Prop :=
  0 < next_seq s ∧ next_seq s + pending_size (out_of_order_packet s) < u32_modulus.

(** ** Concrete segments *)

(** The last three bytes before sequence number 2^32. *)
Definition seg_last := Packet 4294967293 (payload 3 "z").

(** A segment that overlaps the one buffered at 1100. *)
Definition seg2_over := Packet 1050 (payload 100 "b").

(** ** The baseline *)

Section baseline.
Implicit Types (s : stream) (pkt : packet_info).

Lemma wrap32_sub_add a n m : wrap32 (u32_add a n - (m + n)) = wrap32 (a - m).
Proof.
  unfold u32_add, wrap32. rewrite Zminus_mod_idemp_l. f_equal. lia.
Qed.

Lemma drain_step_baseline s s' : drain_step s = Some s' → baseline s' = baseline s.
Proof.
  intros (p & _ & ->)%drain_step_Some. unfold baseline. simpl.
  autorewrite with u32. apply wrap32_sub_add.
Qed.

Lemma drain_baseline n s : baseline (drain n s) = baseline s.
Proof.
  revert s. induction n as [|n IH]; intros s; simpl; [done|].
  destruct (drain_step s) eqn:E; [|done].
  rewrite IH. by apply drain_step_baseline.
Qed.

Lemma accept_segment_baseline pkt s s' :
  next_seq s ≠ 0 → accept_segment pkt s = Some s' → baseline s' = baseline s.
Proof.
  intros H0. unfold accept_segment. repeat case_decide; intros; simplify_eq; [done|].
  assert (seq pkt = next_seq s) as Heq
    by (destruct (decide (seq pkt = next_seq s)); tauto).
  unfold baseline. simpl. rewrite Heq. autorewrite with u32. apply wrap32_sub_add.
Qed.

End baseline.

(** ** Runs without wrap-around *)

Section no_wrap.
Implicit Types (s : stream) (pkt : packet_info).

Lemma drain_step_no_wrap s s' :
  no_wrap s → drain_step s = Some s' →
  no_wrap s' ∧ next_seq s ≤ next_seq s' ∧
  ∀ k, k < next_seq s →
       out_of_order_packet s' !! k = out_of_order_packet s !! k.
Proof.
  intros [Hpos Hend] (p & Hp & ->)%drain_step_Some. simpl.
  rewrite (pending_size_delete _ _ _ Hp) in Hend.
  pose proof (size_of_nonneg p).
  pose proof (pending_size_nonneg (delete (next_seq s) (out_of_order_packet s))).
  rewrite u32_add_small by u32_lia.
  split; [split; simpl; lia|]. split; [lia|].
  intros k Hk. apply lookup_delete_ne. lia.
Qed.

Lemma drain_no_wrap n s :
  no_wrap s →
  no_wrap (drain n s) ∧ next_seq s ≤ next_seq (drain n s) ∧
  ∀ k, k < next_seq s →
       out_of_order_packet (drain n s) !! k = out_of_order_packet s !! k.
Proof.
  revert s. induction n as [|n IH]; intros s Hs; simpl; [done|].
  destruct (drain_step s) as [s1|] eqn:E; [|done].
  destruct (drain_step_no_wrap _ _ Hs E) as (Hs1 & Hle & Hk).
  destruct (IH _ Hs1) as (Hs' & Hle' & Hk').
  split; [done|]. split; [lia|]. intros k Hlt. rewrite Hk' by lia. by apply Hk.
Qed.

Lemma append_segment_no_wrap pkt s :
  no_wrap s → seq pkt = next_seq s →
  next_seq s + size_of (body pkt) + pending_size (out_of_order_packet s) < u32_modulus →
  no_wrap (append_segment pkt s) ∧
  next_seq (append_segment pkt s) = next_seq s + size_of (body pkt).
Proof.
  intros [Hpos _] Hseq Hend. pose proof (size_of_nonneg (body pkt)).
  pose proof (pending_size_nonneg (out_of_order_packet s)).
  unfold no_wrap, append_segment. simpl.
  rewrite Hseq, u32_add_small by u32_lia. lia.
Qed.

End no_wrap.

(** ** Properties of the sequence-number arithmetic *)

Section wrap_properties.
Implicit Types (s : stream) (pkt : packet_info).

(** The baseline when [n + b] bytes more are held and the expected
    sequence number [a] has reached 2^32 after [b] of them. *)
Lemma wrap32_replayed a r b :
  a + b = u32_modulus → wrap32 (0 - (r + (b + b))) = wrap32 (wrap32 (a - r) - b).
Proof.
  intros Hab. unfold wrap32. rewrite Zminus_mod_idemp_l.
  replace (a - r - b) with (0 - (r + (b + b)) + 1 * u32_modulus) by lia.
  by rewrite Z_mod_plus_full.
Qed.

Lemma drain_all_empty s : out_of_order_packet s = ∅ → drain_all s = s.
Proof.
  intros H. apply drain_all_fix, drain_step_None. unfold drained.
  by rewrite H, lookup_empty.
Qed.

(** The state after an in-order segment, in a run without wrap-around. *)
Lemma absorb_in_order_no_wrap pkt s :
  (next_seq s = 0 ∨ seq pkt = next_seq s) → 0 ≤ seq pkt → body pkt ≠ [] →
  seq pkt + size_of (body pkt) + pending_size (out_of_order_packet s) < u32_modulus →
  ∃ s', absorb pkt s = Some s' ∧ no_wrap s' ∧ seq pkt < next_seq s'.
Proof.
  intros Hin Hseq Hb Hend. pose proof (pending_size_nonneg (out_of_order_packet s)).
  pose proof (size_of_pos _ Hb).
  unfold absorb.
  assert (accept_segment pkt s = Some (append_segment pkt s)) as ->
    by (destruct Hin; [by apply accept_segment_first|by apply accept_segment_in_order]).
  simpl. eexists. split; [done|].
  assert (no_wrap (append_segment pkt s)) as Hnw.
  { unfold no_wrap, append_segment. simpl. rewrite u32_add_small by u32_lia. lia. }
  destruct (drain_no_wrap (size (out_of_order_packet (append_segment pkt s))) _ Hnw)
    as (Hnw' & Hle & _).
  split; [done|]. unfold drain_all.
  change (next_seq (append_segment pkt s))
    with (u32_add (seq pkt) (size_of (body pkt))) in Hle.
  rewrite u32_add_small in Hle by u32_lia. lia.
Qed.

(** C33. The baseline.  Every call of [parse] that does not start from the
    zero mark keeps the sequence number of the first byte of [raw], modulo
    2^32: [next_seq] always equals that baseline plus the length of [raw]. *)
Theorem absorb_keeps_baseline pkt s s' :
  next_seq s ≠ 0 → absorb pkt s = Some s' → baseline s' = baseline s.
Proof.
  unfold absorb. intros H0 (s1 & Hacc & ->)%fmap_Some.
  unfold drain_all. rewrite drain_baseline. by eapply accept_segment_baseline.
Qed.

(** C34. Idempotence under retransmission.  In a run without wrap-around, a
    non-empty segment that has just been appended is ignored when it is
    delivered again: neither [raw] nor [next_seq] nor the map change, and
    the run stays without wrap-around. *)
Theorem absorb_again_ignored pkt s :
  (next_seq s = 0 ∨ seq pkt = next_seq s) → 0 ≤ seq pkt → body pkt ≠ [] →
  seq pkt + size_of (body pkt) + pending_size (out_of_order_packet s) < u32_modulus →
  absorb_all [pkt; pkt] s = absorb_all [pkt] s ∧ no_wrap (absorb_all [pkt] s).
Proof.
  intros Hin Hseq Hb Hend.
  destruct (absorb_in_order_no_wrap pkt s) as (s' & Habs & Hnw & Hlt); [done..|].
  unfold absorb_all. simpl. unfold absorb_keep. rewrite Habs. simpl.
  split; [|done]. destruct Hnw as [Hpos _].
  rewrite (proj2 (absorb_None pkt s')); [done|split; lia].
Qed.

(** C35. An entry of [out_of_order_packet] that lies below the expected
    sequence number is never erased as long as sequence numbers do not wrap
    around: the loop only looks up [next_seq], which has passed it.  Its
    bytes never reach [raw], the map never becomes empty again, and the
    state stays one without wrap-around, so the same holds after every
    further call. *)
Theorem stale_entry_persists pkt s s' k v :
  out_of_order_packet s !! k = Some v → 0 ≤ k < next_seq s →
  next_seq s + size_of (body pkt) + pending_size (out_of_order_packet s) < u32_modulus →
  absorb pkt s = Some s' →
  out_of_order_packet s' !! k = Some v ∧ k < next_seq s' ∧ no_wrap s'.
Proof.
  intros Hk Hlt Hend. unfold absorb. intros (s1 & Hacc & ->)%fmap_Some.
  pose proof (size_of_nonneg (body pkt)).
  pose proof (pending_size_nonneg (out_of_order_packet s)).
  assert (no_wrap s1 ∧ next_seq s ≤ next_seq s1 ∧ out_of_order_packet s1 !! k = Some v)
    as (Hnw & Hle & Hk1).
  { revert Hacc. unfold accept_segment. repeat case_decide; intros; simplify_eq.
    - unfold no_wrap. rewrite buffer_segment_stored_pending. simpl.
      rewrite lookup_map_insert_pair_ne by lia. repeat split; try done; try lia.
      case_decide; lia.
    - assert (seq pkt = next_seq s) as Heq
        by (destruct (decide (seq pkt = next_seq s)); [done|]; exfalso; naive_solver lia).
      destruct (append_segment_no_wrap pkt s) as [Hnw Hn]; [split; lia|done..|].
      rewrite Hn. split; [done|]. split; [lia|done]. }
  destruct (drain_no_wrap (size (out_of_order_packet s1)) _ Hnw) as (Hnw' & Hle' & Hk').
  unfold drain_all. rewrite Hk' by lia. split; [done|]. split; [lia|done].
Qed.

(** C7. The zero mark is also a sequence number.  When the expected
    sequence number reaches 0 by wrap-around (a segment ends exactly on
    2^32), the direction forgets that it has a baseline: the next segment is
    appended whatever its number, so the same segment delivered again is
    appended a second time, and the baseline moves back by its length. *)
Theorem absorb_wrap_to_zero_replays pkt s :
  seq pkt = next_seq s → seq pkt + size_of (body pkt) = u32_modulus →
  out_of_order_packet s = ∅ →
  absorb_all [pkt; pkt] s =
    {| raw := raw s ++ body pkt ++ body pkt; next_seq := 0;
       out_of_order_packet := ∅ |} ∧
  baseline (absorb_all [pkt; pkt] s) = wrap32 (baseline s - size_of (body pkt)).
Proof.
  intros Hseq Hend Hm.
  assert (u32_add (seq pkt) (size_of (body pkt)) = 0) as Hz
    by (unfold u32_add, wrap32; rewrite Hend; apply Z.mod_same; done).
  assert (absorb_all [pkt; pkt] s =
          {| raw := raw s ++ body pkt ++ body pkt; next_seq := 0;
             out_of_order_packet := ∅ |}) as Heq.
  { unfold absorb_all. simpl. unfold absorb_keep at 2, absorb.
    rewrite accept_segment_in_order by done. simpl.
    rewrite drain_all_empty by done. unfold absorb_keep, absorb.
    rewrite accept_segment_first by (simpl; done). simpl.
    rewrite drain_all_empty by done. unfold append_segment. simpl.
    by rewrite Hz, Hm, <-app_assoc. }
  split; [done|]. rewrite Heq. unfold baseline. simpl.
  autorewrite with u32. rewrite <-Hseq. by apply wrap32_replayed.
Qed.

End wrap_properties.

(** ** The properties at concrete inputs *)

Section wrap_witnesses.

Lemma absorb_keeps_baseline_witness :
  baseline (buffer_segment seg3 (absorb_all [seg1] stream_init)) =
  baseline (absorb_all [seg1] stream_init).
Proof. apply (absorb_keeps_baseline seg3); concrete. Defined.

Lemma absorb_again_ignored_witness :
  absorb_all [seg2; seg2] (expecting (payload 50 "a") 1050) =
  absorb_all [seg2] (expecting (payload 50 "a") 1050) ∧
  no_wrap (absorb_all [seg2] (expecting (payload 50 "a") 1050)).
Proof. apply absorb_again_ignored; [by right|concrete..]. Defined.

(** A segment that covers the gap and more leaves the buffered segment
    behind the expected sequence number; from then on it stays. *)
Example stale_entry_arises :
  absorb_all [seg1; seg3; seg2_over] stream_init =
    {| raw := payload 50 "a" ++ payload 100 "b"; next_seq := 1150;
       out_of_order_packet := {[ 1100 := payload 20 "c" ]} |}.
Proof. vm_compute. reflexivity. Qed.

Lemma stale_entry_persists_witness :
  out_of_order_packet
    (absorb_all [seg1; seg3; seg2_over; Packet 1150 (payload 9 "d")] stream_init)
    !! 1100 = Some (payload 20 "c")
  ∧ 1100 < next_seq
      (absorb_all [seg1; seg3; seg2_over; Packet 1150 (payload 9 "d")] stream_init)
  ∧ no_wrap
      (absorb_all [seg1; seg3; seg2_over; Packet 1150 (payload 9 "d")] stream_init).
Proof.
  apply (stale_entry_persists (Packet 1150 (payload 9 "d"))
           (absorb_all [seg1; seg3; seg2_over] stream_init)); concrete.
Defined.

Lemma absorb_wrap_to_zero_replays_witness :
  absorb_all [seg_last; seg_last] (expecting (payload 2 "y") 4294967293) =
    {| raw := payload 2 "y" ++ payload 3 "z" ++ payload 3 "z"; next_seq := 0;
       out_of_order_packet := ∅ |} ∧
  baseline (absorb_all [seg_last; seg_last] (expecting (payload 2 "y") 4294967293)) =
    wrap32 (baseline (expecting (payload 2 "y") 4294967293) - size_of (body seg_last)).
Proof. apply (absorb_wrap_to_zero_replays seg_last); concrete. Defined.

End wrap_witnesses.
