(* ===== verification/SegmentBufferSpec.v ===== *)
(** * The SegmentBuffer contract and its refinement by [custom_parser::parse]

    spec.md (sections 3 and 4.1) describes the reassembly as a component
    SegmentBuffer with an explicit [baseline_set] flag, an operation
    [absorb] and three outcomes.  This file writes that contract down
    ([sb_absorb]) and proves that the code of src/custom_parser.cpp,
    lines 28-51 (file Reassembly), implements it step by step and over whole
    runs, as long as the run stays away from the two places where the code
    and the contract part: the expected sequence number reaching 0, which
    the code reads as "no baseline", and a second segment ahead with a
    sequence number that is already waiting.  For the latter spec.md only
    says "insert into pending, keyed by sequence"; [sb_absorb] reads it as
    a mapping update, the code's [std::map::insert] keeps the payload that
    is there (theorem [absorb_ahead_duplicate] of file Reassembly), and the
    refinement is stated away from that case, so it holds for either
    reading.  On the segments of one stream, delivered once each in any
    order (file Ordering), neither case happens, and the refinement holds
    without conditions. *)

From Stdlib Require Import ZArith Lia.
From stdpp Require Import gmap.
From S2P Require Import Prelude Reassembly Ordering.

(** ** The contract *)

(** Outcome of [absorb], spec.md section 4.1. *)
Inductive outcome := Appended | BufferedOutOfOrder | DroppedDuplicate.

#[export] Instance outcome_eq_dec : EqDecision outcome.
Proof. solve_decision. Defined.

(** SegmentBuffer, spec.md section 3 ([consumed_len] belongs to the parser
    adapter and is modelled with it). *)
Record segment_buffer := SegmentBuffer {
  baseline_set : bool;
  expected_next : Z;
  contiguous : bytes;
  pending : gmap Z bytes
}.

Definition sb_init : segment_buffer :=
  {| baseline_set := false; expected_next := 0; contiguous := []; pending := ∅ |}.

(** "check [pending] for an entry keyed exactly [expected_next]: if found,
    move it into [contiguous], advance [expected_next] by its length, remove
    it from [pending]". *)
Definition sb_drain_step (b : segment_buffer) : option segment_buffer :=
  match pending b !! expected_next b with
  | Some payload =>
      Some {| baseline_set := baseline_set b;
              expected_next := u32_add (expected_next b) (size_of payload);
              contiguous := contiguous b ++ payload;
              pending := delete (expected_next b) (pending b) |}
  | None => None
  end.

(** "repeat until no match". *)
Fixpoint sb_drain (fuel : nat) (b : segment_buffer) : segment_buffer :=
  match fuel with
  | O => b
  | S fuel' =>
      match sb_drain_step b with
      | Some b' => sb_drain fuel' b'
      | None => b
      end
  end.

(** Operation [absorb(segment) -> outcome], spec.md section 4.1.  The
    spec does not say what "insert into pending" does to a sequence
    number that already waits; here it is the update of the mapping. *)
Definition sb_absorb (pkt : packet_info) (b : segment_buffer)
    : outcome * segment_buffer :=
  if negb (baseline_set b) then
    (Appended,
     {| baseline_set := true;
        expected_next := u32_add (seq pkt) (size_of (body pkt));
        contiguous := contiguous b ++ body pkt;
        pending := pending b |})
  else if decide (seq pkt = expected_next b) then
    (Appended,
     sb_drain (size (pending b))
       {| baseline_set := true;
          expected_next := u32_add (expected_next b) (size_of (body pkt));
          contiguous := contiguous b ++ body pkt;
          pending := pending b |})
  else if decide (seq pkt < expected_next b) then (DroppedDuplicate, b)
  else
    (BufferedOutOfOrder,
     {| baseline_set := true;
        expected_next := expected_next b;
        contiguous := contiguous b;
        pending := <[seq pkt := body pkt]> (pending b) |}).

Definition sb_absorb_all (pkts : list packet_info) (b : segment_buffer)
    : segment_buffer :=
  foldl (λ b pkt, (sb_absorb pkt b).2) b pkts.

(** ** The code against the contract *)

(** The outcome the code's branch corresponds to. *)
Definition outcome_of (pkt : packet_info) (s : stream) : outcome :=
  if decide (next_seq s ≠ 0 ∧ seq pkt ≠ next_seq s) then
    if decide (seq pkt < next_seq s) then DroppedDuplicate else BufferedOutOfOrder
  else Appended.

(** The state of one direction read as a SegmentBuffer: the baseline is set
    when [next_seq] is not the zero mark. *)
Definition abstract (s : stream) : segment_buffer :=
  {| baseline_set := bool_decide (next_seq s ≠ 0);
     expected_next := next_seq s;
     contiguous := raw s;
     pending := out_of_order_packet s |}.

(** States on which the reading is meaningful: nothing waits before a
    baseline exists, and nothing waits at the expected sequence number. *)
Definition consistent (s : stream) : Prop :=
  (next_seq s = 0 → out_of_order_packet s = ∅) ∧ drained s.

#[export] Instance consistent_dec s : Decision (consistent s).
Proof. unfold consistent. apply _. Defined.

(** A delivery on which code and contract agree: the expected sequence
    number does not come out as 0, and a segment ahead does not hit a
    sequence number that is already waiting. *)
Definition agreeable (pkt : packet_info) (s : stream) : Prop :=
  next_seq (absorb_keep s pkt) ≠ 0 ∧
  (outcome_of pkt s = BufferedOutOfOrder →
   out_of_order_packet s !! seq pkt = None).

#[export] Instance agreeable_dec pkt s : Decision (agreeable pkt s).
Proof. unfold agreeable. apply _. Defined.

Fixpoint agreeable_run (pkts : list packet_info) (s : stream) : Prop :=
  match pkts with
  | [] => True
  | pkt :: pkts' => agreeable pkt s ∧ agreeable_run pkts' (absorb_keep s pkt)
  end.

#[export] Instance agreeable_run_dec pkts s : Decision (agreeable_run pkts s).
Proof. revert s. induction pkts; simpl; apply _. Defined.

(** ** Simulation lemmas *)

Section simulation.
Implicit Types (s : stream) (pkt : packet_info) (b : segment_buffer) (f : bool).

(** A direction's state read with a given baseline flag. *)
Definition with_flag (f : bool) (s : stream) : segment_buffer :=
  {| baseline_set := f; expected_next := next_seq s; contiguous := raw s;
     pending := out_of_order_packet s |}.

Lemma abstract_with_flag s : abstract s = with_flag (bool_decide (next_seq s ≠ 0)) s.
Proof. done. Qed.

Lemma abstract_baseline s : next_seq s ≠ 0 → abstract s = with_flag true s.
Proof. intros H. by rewrite abstract_with_flag, bool_decide_eq_true_2. Qed.

Lemma sb_drain_step_with_flag f s :
  sb_drain_step (with_flag f s) = with_flag f <$> drain_step s.
Proof.
  rewrite drain_step_lookup. unfold sb_drain_step. simpl.
  by destruct (out_of_order_packet s !! next_seq s).
Qed.

Lemma sb_drain_with_flag n f s : sb_drain n (with_flag f s) = with_flag f (drain n s).
Proof.
  revert s. induction n as [|n IH]; intros s; simpl; [done|].
  rewrite sb_drain_step_with_flag. destruct (drain_step s); simpl; [apply IH|done].
Qed.

Lemma absorb_keep_consistent pkt s :
  consistent s → next_seq (absorb_keep s pkt) ≠ 0 → consistent (absorb_keep s pkt).
Proof.
  intros Hc Hn. split; [done|]. unfold absorb_keep, absorb in *.
  destruct (accept_segment pkt s); simpl; [apply drain_all_drained|apply Hc].
Qed.

Lemma outcome_of_first pkt s : next_seq s = 0 → outcome_of pkt s = Appended.
Proof. intros H. unfold outcome_of. rewrite decide_False; [done|tauto]. Qed.

Lemma outcome_of_in_order pkt s : seq pkt = next_seq s → outcome_of pkt s = Appended.
Proof. intros H. unfold outcome_of. rewrite decide_False; [done|tauto]. Qed.

Lemma outcome_of_below pkt s :
  next_seq s ≠ 0 → seq pkt < next_seq s → outcome_of pkt s = DroppedDuplicate.
Proof.
  intros H0 Hlt. unfold outcome_of.
  rewrite decide_True by (split; [done|lia]). by rewrite decide_True.
Qed.

Lemma outcome_of_ahead pkt s :
  next_seq s ≠ 0 → next_seq s < seq pkt → outcome_of pkt s = BufferedOutOfOrder.
Proof.
  intros H0 Hlt. unfold outcome_of.
  rewrite decide_True by (split; [done|lia]). by rewrite decide_False by lia.
Qed.

Lemma sb_absorb_unset pkt s :
  sb_absorb pkt (with_flag false s) = (Appended, with_flag true (append_segment pkt s)).
Proof. done. Qed.

Lemma sb_absorb_in_order pkt s :
  seq pkt = next_seq s →
  sb_absorb pkt (with_flag true s) =
    (Appended, with_flag true (drain_all (append_segment pkt s))).
Proof.
  intros Heq. unfold sb_absorb. simpl. rewrite decide_True by done.
  f_equal. rewrite <-Heq. apply (sb_drain_with_flag _ true (append_segment pkt s)).
Qed.

Lemma sb_absorb_below pkt s :
  seq pkt < next_seq s →
  sb_absorb pkt (with_flag true s) = (DroppedDuplicate, with_flag true s).
Proof.
  intros Hlt. unfold sb_absorb. simpl.
  rewrite decide_False by lia. by rewrite decide_True.
Qed.

Lemma sb_absorb_ahead pkt s :
  next_seq s < seq pkt →
  sb_absorb pkt (with_flag true s) =
    (BufferedOutOfOrder,
     with_flag true
       {| raw := raw s; next_seq := next_seq s;
          out_of_order_packet := <[seq pkt := body pkt]> (out_of_order_packet s) |}).
Proof.
  intros Hlt. unfold sb_absorb. simpl. by rewrite !decide_False by lia.
Qed.

End simulation.

(** ** Refinement *)

Section refinement.
Implicit Types (s : stream) (pkt : packet_info).

(** One call refines the contract.  On a consistent state and for an
    agreeable delivery, the reassembly part of [parse] does what the
    contract's [absorb] does on the abstract state: same outcome, and the
    state it leaves is the abstract image of the state the code leaves. *)
Lemma absorb_refines_contract pkt s :
  consistent s → agreeable pkt s →
  sb_absorb pkt (abstract s) = (outcome_of pkt s, abstract (absorb_keep s pkt)).
Proof.
  intros [Hempty Hdr] [Hnz Hfresh].
  rewrite (abstract_baseline (absorb_keep s pkt)) by done.
  destruct (decide (next_seq s = 0)) as [Hz|Hz].
  { rewrite abstract_with_flag, bool_decide_eq_false_2 by tauto.
    by rewrite sb_absorb_unset, outcome_of_first, absorb_keep_first by auto. }
  rewrite abstract_baseline by done.
  destruct (Z.lt_trichotomy (seq pkt) (next_seq s)) as [Hlt|[Heq|Hgt]].
  - by rewrite sb_absorb_below, outcome_of_below, absorb_keep_below.
  - by rewrite sb_absorb_in_order, outcome_of_in_order, absorb_keep_in_order.
  - rewrite outcome_of_ahead in * by done.
    rewrite sb_absorb_ahead, absorb_keep_ahead by done.
    unfold buffer_segment. by rewrite map_insert_pair_fresh by auto.
Qed.

(** C4. Whole runs refine the contract.  From a consistent state, a run of
    deliveries that are all agreeable leaves the code in the state the
    contract reaches from the abstract start state. *)
Theorem absorb_all_refines_contract pkts s :
  consistent s → agreeable_run pkts s →
  sb_absorb_all pkts (abstract s) = abstract (absorb_all pkts s).
Proof.
  unfold sb_absorb_all, absorb_all. revert s.
  induction pkts as [|pkt pkts IH]; intros s Hc Hrun; simpl; [done|].
  destruct Hrun as [Hag Hrun].
  rewrite absorb_refines_contract by done. simpl.
  apply IH; [|done]. apply absorb_keep_consistent; [done|apply Hag].
Qed.

End refinement.

(** ** The contract on the segments of a stream

    On the deliveries of file Ordering, segments of one stream that arrive
    once each in any order, every state is consistent and every delivery
    agreeable: there the code refines the contract without conditions. *)

Section chain_refinement.
Context (r0 : bytes) (a : Z) (ps : list packet_info).
Context (Ha : 0 < a) (Hchain : chain a ps).
Context (Hend : a + size_of (stream_of ps) < u32_modulus).
Implicit Types (D : gset Z) (q : packet_info) (s : stream).

Lemma reassembled_next_seq D s :
  reassembled r0 a ps D s → 0 < next_seq s < u32_modulus.
Proof.
  clear Hchain. intros (pre & post & Hps & _ & _ & ->). simpl.
  rewrite Hps, stream_of_app, size_of_app in Hend.
  pose proof (size_of_nonneg (stream_of pre)).
  pose proof (size_of_nonneg (stream_of post)). lia.
Qed.

Lemma reassembled_consistent D s : reassembled r0 a ps D s → consistent s.
Proof.
  intros Hs. split.
  { intros Hz. apply reassembled_next_seq in Hs. lia. }
  destruct Hs as (pre & post & Hps & _ & Hgap & ->). unfold drained. simpl.
  destruct post as [|p post]; [by rewrite pending_of_nil|].
  rewrite Hps in Hchain. apply chain_app in Hchain as [_ [Hp _]].
  apply lookup_pending_of_undelivered. by rewrite <-Hp.
Qed.

Lemma reassembled_agreeable D s q :
  reassembled r0 a ps D s → q ∈ ps → seq q ∉ D → agreeable q s.
Proof.
  intros Hs Hq HqD. split.
  - destruct (absorb_reassembled r0 a ps Ha Hchain Hend D s q)
      as (s' & Habs & Hs'); [done..|].
    unfold absorb_keep. rewrite Habs. simpl.
    apply reassembled_next_seq in Hs'. lia.
  - intros _. destruct Hs as (pre & post & _ & _ & _ & ->). simpl.
    by apply lookup_pending_of_undelivered.
Qed.

Lemma sb_absorb_all_reassembled qs D s :
  reassembled r0 a ps D s → Forall (λ q, q ∈ ps) qs →
  NoDup (seq <$> qs) → Forall (λ q, seq q ∉ D) qs →
  sb_absorb_all qs (abstract s) = abstract (absorb_all qs s).
Proof.
  unfold sb_absorb_all, absorb_all.
  revert D s. induction qs as [|q qs IH]; intros D s Hs Hin Hnd Hfresh; [done|].
  apply Forall_cons in Hin as [Hq Hin]. apply Forall_cons in Hfresh as [HqD Hfresh].
  rewrite fmap_cons in Hnd. apply NoDup_cons in Hnd as [Hq' Hnd]. simpl.
  rewrite absorb_refines_contract
    by eauto using reassembled_consistent, reassembled_agreeable.
  destruct (absorb_reassembled r0 a ps Ha Hchain Hend D s q)
    as (s' & Habs & Hs'); [done..|].
  assert (absorb_keep s q = s') as -> by (unfold absorb_keep; by rewrite Habs).
  apply (IH ({[seq q]} ∪ D)); [done..|]. by apply Forall_fresh_delivered.
Qed.

End chain_refinement.

Section chain_refinement_properties.

(** C12. On the segments of a stream the code refines the contract without
    conditions.  Let the segments [ps] be consecutive from the expected
    sequence number [a > 0], without wrap-around.  After any distinct ones
    of them have been delivered in any order, the contract's SegmentBuffer
    is in the state the code's members stand for; and when all have been
    delivered it holds the whole stream as [contiguous], with nothing
    [pending]. *)
Theorem sb_absorb_all_chain (r0 : bytes) a ps qs :
  0 < a → chain a ps → a + size_of (stream_of ps) < u32_modulus →
  Forall (λ q, q ∈ ps) qs → NoDup (seq <$> qs) →
  sb_absorb_all qs (abstract (expecting r0 a)) =
    abstract (absorb_all qs (expecting r0 a)) ∧
  (qs ≡ₚ ps →
   sb_absorb_all qs (abstract (expecting r0 a)) =
     {| baseline_set := true; expected_next := a + size_of (stream_of ps);
        contiguous := r0 ++ stream_of ps; pending := ∅ |}).
Proof.
  intros Ha Hc Hend Hin Hnd.
  assert (sb_absorb_all qs (abstract (expecting r0 a)) =
          abstract (absorb_all qs (expecting r0 a))) as Heq.
  { apply (sb_absorb_all_reassembled r0 a ps Ha Hc Hend qs ∅);
      [apply reassembled_start|done..|].
    apply Forall_forall. intros q _. apply not_elem_of_empty. }
  split; [done|]. intros Hperm.
  rewrite Heq, (absorb_all_complete r0 a ps) by done.
  unfold abstract. simpl. rewrite bool_decide_eq_true_2; [done|].
  pose proof (size_of_nonneg (stream_of ps)). lia.
Qed.

End chain_refinement_properties.

(** ** The properties at concrete inputs *)

Section refinement_witnesses.

Example absorb_refines_contract_ahead :
  sb_absorb seg3 (abstract after_seg1) =
    (BufferedOutOfOrder, abstract (absorb_keep after_seg1 seg3)).
Proof. by vm_compute. Qed.

Lemma absorb_all_refines_contract_witness :
  sb_absorb_all [seg1; seg3; seg2_long] (abstract stream_init) =
    abstract (absorb_all [seg1; seg3; seg2_long] stream_init).
Proof. apply absorb_all_refines_contract; concrete. Defined.

Lemma sb_absorb_all_chain_witness :
  sb_absorb_all [seg3; seg2_long] (abstract (expecting (payload 50 "a") 1050)) =
    abstract (absorb_all [seg3; seg2_long] (expecting (payload 50 "a") 1050)) ∧
  ([seg3; seg2_long] ≡ₚ [seg2_long; seg3] →
   sb_absorb_all [seg3; seg2_long] (abstract (expecting (payload 50 "a") 1050)) =
     {| baseline_set := true;
        expected_next := 1050 + size_of (stream_of [seg2_long; seg3]);
        contiguous := payload 50 "a" ++ stream_of [seg2_long; seg3]; pending := ∅ |}).
Proof. apply sb_absorb_all_chain; concrete. Defined.

End refinement_witnesses.
