(* ===== verification/External.v ===== *)
(** * The collaborators of [custom_parser]

    src/custom_parser.cpp calls four things it does not define: the
    http_parser library ([http_parser_init], [http_parser_execute],
    [http_method_str]), [gzip_decompress] and [is_plain_text] of util.h,
    [pcre_exec], and the output streams.  This file states what the model
    takes from each of them: the data that crosses the boundary, as
    inductive types and records, and one type class per collaborator holding
    its operations and the part of its contract the theorems rely on.  The
    components are proved against these classes; small instances at the end
    of the file make them inhabited and serve the concrete runs. *)

From Stdlib Require Import ZArith Lia.
From stdpp Require Import list.
From S2P Require Import Prelude CString.

(** ** The token parser (http_parser) *)

(** [enum http_parser_type]. *)
Inductive http_parser_type := HTTP_REQUEST | HTTP_RESPONSE | HTTP_BOTH.

#[export] Instance http_parser_type_eq_dec : EqDecision http_parser_type.
Proof. solve_decision. Defined.

(** The fields of [struct http_parser] that [custom_parser] reads, and the
    rest of the parser's state, of a type [S] the library chooses. *)
Record http_parser (S : Type) := HttpParser {
  parser_type : http_parser_type;
  parser_nread : nat;
  parser_method : Z;
  parser_errno : Z;
  parser_state : S
}.
Arguments HttpParser {S}.
Arguments parser_type {S}.
Arguments parser_nread {S}.
Arguments parser_method {S}.
Arguments parser_errno {S}.
Arguments parser_state {S}.

(** [HPE_OK]. *)
Definition HPE_OK : Z := 0.

(** The callbacks of [http_parser_settings] that the constructor sets. *)
Inductive callback_kind :=
  | URL | HEADER_FIELD | HEADER_VALUE | HEADERS_COMPLETE | BODY | MESSAGE_COMPLETE.

#[export] Instance callback_kind_eq_dec : EqDecision callback_kind.
Proof. solve_decision. Defined.

(** One callback made by [http_parser_execute]: which one, the fields of
    the parser a callback can read at that moment, and, for the data
    callbacks, [at] as an offset into the data passed to the call and
    [length]. *)
Record callback := Callback {
  cb_kind : callback_kind;
  cb_type : http_parser_type;
  cb_nread : nat;
  cb_method : Z;
  cb_at : nat;
  cb_length : nat
}.

#[export] Instance callback_eq_dec : EqDecision callback.
Proof. solve_decision. Defined.

(** What [http_parser_execute] does on a parser and the bytes it is given,
    when every callback returns 0 (as all six of this program do): the
    callbacks in the order they are made, the parser afterwards, and the
    number of bytes parsed it returns. *)
Record execution (S : Type) := Execution {
  ex_callbacks : list callback;
  ex_parser : http_parser S;
  ex_nparsed : nat
}.
Arguments Execution {S}.
Arguments ex_callbacks {S}.
Arguments ex_parser {S}.
Arguments ex_nparsed {S}.

(** A callback's data lies inside the bytes given to the call. *)
Definition callback_in_bounds (len : nat) (cb : callback) : Prop :=
  (cb_at cb + cb_length cb ≤ len)%nat.

#[export] Instance callback_in_bounds_dec len cb : Decision (callback_in_bounds len cb).
Proof. unfold callback_in_bounds. apply _. Defined.

Class TokenParser := {
  (** the parser's private state *)
  token_state : Type;
  (** the private state [http_parser_init] sets up *)
  token_state_init : http_parser_type → token_state;
  (** [http_parser_execute(&parser, &settings, data, len)] *)
  http_parser_execute : http_parser token_state → bytes → execution token_state;
  (** [http_method_str] *)
  http_method_str : Z → bytes;
  (** contract: callback data points into the bytes given *)
  execute_in_bounds p data :
    Forall (callback_in_bounds (length data)) (ex_callbacks (http_parser_execute p data));
  (** contract: no more bytes are parsed than were given *)
  execute_nparsed p data : (ex_nparsed (http_parser_execute p data) ≤ length data)%nat;
  (** contract: a parser initialised for requests or for responses keeps
      its type, and its callbacks see that type *)
  execute_type p data :
    parser_type p ≠ HTTP_BOTH →
    parser_type (ex_parser (http_parser_execute p data)) = parser_type p;
  execute_callback_type p data :
    parser_type p ≠ HTTP_BOTH →
    Forall (λ cb, cb_type cb = parser_type p) (ex_callbacks (http_parser_execute p data))
}.

(** [http_parser_init(&parser, t)]: everything but [data] is reset. *)
Definition http_parser_init `{TokenParser} (t : http_parser_type)
    : http_parser token_state :=
  {| parser_type := t; parser_nread := 0; parser_method := 0;
     parser_errno := HPE_OK; parser_state := token_state_init t |}.

(** [HTTP_PARSER_ERRNO(&parser) == HPE_OK]. *)
Definition errno_ok {S} (p : http_parser S) : bool := bool_decide (parser_errno p = HPE_OK).

(** ** Decompression, matching, text heuristic (util.h, pcre) *)

Class Decompressor := {
  (** [gzip_decompress(in, out)]: [Some out] when it returns true *)
  gzip_decompress : bytes → option bytes
}.

Class TextHeuristic := {
  (** [is_plain_text] *)
  is_plain_text : bytes → bool
}.

(** A compiled pattern with its study data, as [pcre_exec] uses them: the
    return code of a match against a subject. *)
Record pcre := Pcre { pcre_exec : bytes → Z }.

(** ** Output *)

(** What the program writes, in order. *)
Inductive output :=
  | Stdout (text : bytes)
  | Stderr (text : bytes)
  | FileAppend (path text : bytes)
  | Exit (code : Z).

#[export] Instance output_eq_dec : EqDecision output.
Proof. solve_decision. Defined.

(** What [std::endl] writes. *)
Definition endl : bytes := [x0a].

(** Carriage return and line feed, the line end of HTTP. *)
Definition crlf : bytes := [x0d; x0a].

(** The ANSI escape sequences of util.h. *)
Class Colors := {
  ANSI_COLOR_RED : bytes;
  ANSI_COLOR_GREEN : bytes;
  ANSI_COLOR_BLUE : bytes;
  ANSI_COLOR_CYAN : bytes;
  ANSI_COLOR_RESET : bytes
}.

(** ** Instances for concrete runs *)

(** A token parser driven by a script: it makes, for each call, the
    callbacks the script gives for the parser and the data that lie in
    bounds and carry the parser's type, counts what it has read and parses
    everything. *)
Definition scripted_callback (p : http_parser unit) (len : nat) (cb : callback) : Prop :=
  callback_in_bounds len cb ∧ cb_type cb = parser_type p.

#[export] Instance scripted_callback_dec p len cb : Decision (scripted_callback p len cb).
Proof. unfold scripted_callback. apply _. Defined.

Definition scripted_execute
    (script : http_parser unit → bytes → list callback)
    (p : http_parser unit) (data : bytes) : execution unit :=
  {| ex_callbacks := filter (scripted_callback p (length data)) (script p data);
     ex_parser :=
       {| parser_type := parser_type p;
          parser_nread := parser_nread p + length data;
          parser_method := parser_method p;
          parser_errno := parser_errno p;
          parser_state := tt |};
     ex_nparsed := length data |}.

Program Definition scripted_parser
    (script : http_parser unit → bytes → list callback)
    (method_str : Z → bytes) : TokenParser :=
  {| token_state := unit;
     token_state_init := λ _, tt;
     http_parser_execute := scripted_execute script;
     http_method_str := method_str |}.
Next Obligation.
  intros script _ p data. simpl. apply Forall_forall.
  by intros cb [[? _] _]%list_elem_of_filter.
Qed.
Next Obligation. intros. simpl. lia. Qed.
Next Obligation. done. Qed.
Next Obligation.
  intros script _ p data _. simpl. apply Forall_forall.
  by intros cb [[_ ?] _]%list_elem_of_filter.
Qed.

(** A script given as a table from the data of a call to its callbacks. *)
Definition table_script (table : list (bytes * list callback))
    (p : http_parser unit) (data : bytes) : list callback :=
  match list_find (λ e, e.1 = data) table with
  | Some (_, (_, cbs)) => cbs
  | None => []
  end.

(** A decompressor that knows one compressed text. *)
Definition decompress_one (packed plain : bytes) : Decompressor :=
  {| gzip_decompress := λ b, if decide (b = packed) then Some plain else None |}.

(** A text heuristic: plain text is 7-bit. *)
Definition seven_bit : TextHeuristic :=
  {| is_plain_text := forallb (λ c, bool_decide (byte_val c < 128)) |}.

(** A pattern that matches the subjects in which [needle] occurs. *)
Definition pcre_contains (needle : bytes) : pcre :=
  {| pcre_exec := λ subject, if strstr subject needle is Some _ then 1 else -1 |}.

(** The escape sequences as terminals take them. *)
Definition ansi_colors : Colors :=
  {| ANSI_COLOR_RED := x1b :: lit "[31m";
     ANSI_COLOR_GREEN := x1b :: lit "[32m";
     ANSI_COLOR_BLUE := x1b :: lit "[34m";
     ANSI_COLOR_CYAN := x1b :: lit "[36m";
     ANSI_COLOR_RESET := x1b :: lit "[0m" |}.
