(* ===== verification/Exchange.v ===== *)
(** * The exchange record and the six parser callbacks

    Models the data members of [custom_parser] and the callbacks
    [on_url], [on_header_field], [on_header_value], [on_headers_complete],
    [on_body] and [on_message_complete] (src/custom_parser.cpp, lines
    4-19 and 70-133), with the table that routes a callback of the token
    parser to them.  The members indexed by [HTTP_REQUEST]/[HTTP_RESPONSE]
    are [per_direction] pairs; [raw], [next_seq] and [out_of_order_packet]
    of a direction are kept together as the [stream] of file Reassembly, and
    the member [body] is called [msg_body] here ([body] names the payload of
    a packet).  A pointer [at] is an offset into the buffer it points
    into. *)

From Stdlib Require Import ZArith Lia.
From stdpp Require Import gmap.
From S2P Require Import Prelude CString Reassembly External.

(** ** Members indexed by the parser type *)

(** The two valid indices of the arrays: [HTTP_REQUEST] = 0 and
    [HTTP_RESPONSE] = 1. *)
Inductive direction := REQUEST | RESPONSE.

#[export] Instance direction_eq_dec : EqDecision direction.
Proof. solve_decision. Defined.

(** The index a parser type gives, when the guard
    [type == HTTP_REQUEST || type == HTTP_RESPONSE] holds. *)
Definition direction_of (t : http_parser_type) : option direction :=
  match t with
  | HTTP_REQUEST => Some REQUEST
  | HTTP_RESPONSE => Some RESPONSE
  | HTTP_BOTH => None
  end.

Definition type_of (d : direction) : http_parser_type :=
  match d with REQUEST => HTTP_REQUEST | RESPONSE => HTTP_RESPONSE end.

Definition other (d : direction) : direction :=
  match d with REQUEST => RESPONSE | RESPONSE => REQUEST end.

(** An array [T x[2]]. *)
Record per_direction (A : Type) := PerDirection { for_request : A; for_response : A }.
Arguments PerDirection {A}.
Arguments for_request {A}.
Arguments for_response {A}.

(** [x[d]] *)
#[export] Instance per_direction_lookup {A} : LookupTotal direction A (per_direction A) :=
  λ d x, match d with REQUEST => for_request x | RESPONSE => for_response x end.

(** [x[d] = v] *)
#[export] Instance per_direction_insert {A} : Insert direction A (per_direction A) :=
  λ d v x,
    match d with
    | REQUEST => {| for_request := v; for_response := for_response x |}
    | RESPONSE => {| for_request := for_request x; for_response := v |}
    end.

Definition both {A} (v : A) : per_direction A := {| for_request := v; for_response := v |}.

(** ** The members of [custom_parser] *)

Record custom_parser `{TokenParser} := CustomParser {
  parser : http_parser token_state;
  streams : per_direction stream;
  header : per_direction bytes;
  msg_body : per_direction bytes;
  complete_flag : per_direction bool;
  address : per_direction bytes;
  url : bytes;
  method : bytes;
  host : bytes;
  temp_header_field : bytes;
  gzip_flag : bool
}.

Section members.
Context `{TokenParser}.

(** Lines 4-19: the constructor. *)
Definition custom_parser_init : custom_parser :=
  {| parser := http_parser_init HTTP_REQUEST;
     streams := both stream_init;
     header := both []; msg_body := both [];
     complete_flag := both false; address := both [];
     url := []; method := []; host := []; temp_header_field := [];
     gzip_flag := false |}.

Definition set_parser (v : http_parser token_state) (c : custom_parser) : custom_parser :=
  {| parser := v; streams := streams c; header := header c; msg_body := msg_body c;
     complete_flag := complete_flag c; address := address c; url := url c;
     method := method c; host := host c; temp_header_field := temp_header_field c;
     gzip_flag := gzip_flag c |}.

Definition set_streams (v : per_direction stream) (c : custom_parser) : custom_parser :=
  {| parser := parser c; streams := v; header := header c; msg_body := msg_body c;
     complete_flag := complete_flag c; address := address c; url := url c;
     method := method c; host := host c; temp_header_field := temp_header_field c;
     gzip_flag := gzip_flag c |}.

Definition set_header (v : per_direction bytes) (c : custom_parser) : custom_parser :=
  {| parser := parser c; streams := streams c; header := v; msg_body := msg_body c;
     complete_flag := complete_flag c; address := address c; url := url c;
     method := method c; host := host c; temp_header_field := temp_header_field c;
     gzip_flag := gzip_flag c |}.

Definition set_msg_body (v : per_direction bytes) (c : custom_parser) : custom_parser :=
  {| parser := parser c; streams := streams c; header := header c; msg_body := v;
     complete_flag := complete_flag c; address := address c; url := url c;
     method := method c; host := host c; temp_header_field := temp_header_field c;
     gzip_flag := gzip_flag c |}.

Definition set_complete_flag (v : per_direction bool) (c : custom_parser) : custom_parser :=
  {| parser := parser c; streams := streams c; header := header c; msg_body := msg_body c;
     complete_flag := v; address := address c; url := url c;
     method := method c; host := host c; temp_header_field := temp_header_field c;
     gzip_flag := gzip_flag c |}.

Definition set_url (v : bytes) (c : custom_parser) : custom_parser :=
  {| parser := parser c; streams := streams c; header := header c; msg_body := msg_body c;
     complete_flag := complete_flag c; address := address c; url := v;
     method := method c; host := host c; temp_header_field := temp_header_field c;
     gzip_flag := gzip_flag c |}.

Definition set_method (v : bytes) (c : custom_parser) : custom_parser :=
  {| parser := parser c; streams := streams c; header := header c; msg_body := msg_body c;
     complete_flag := complete_flag c; address := address c; url := url c;
     method := v; host := host c; temp_header_field := temp_header_field c;
     gzip_flag := gzip_flag c |}.

Definition set_host (v : bytes) (c : custom_parser) : custom_parser :=
  {| parser := parser c; streams := streams c; header := header c; msg_body := msg_body c;
     complete_flag := complete_flag c; address := address c; url := url c;
     method := method c; host := v; temp_header_field := temp_header_field c;
     gzip_flag := gzip_flag c |}.

Definition set_temp_header_field (v : bytes) (c : custom_parser) : custom_parser :=
  {| parser := parser c; streams := streams c; header := header c; msg_body := msg_body c;
     complete_flag := complete_flag c; address := address c; url := url c;
     method := method c; host := host c; temp_header_field := v;
     gzip_flag := gzip_flag c |}.

Definition set_gzip_flag (v : bool) (c : custom_parser) : custom_parser :=
  {| parser := parser c; streams := streams c; header := header c; msg_body := msg_body c;
     complete_flag := complete_flag c; address := address c; url := url c;
     method := method c; host := host c; temp_header_field := temp_header_field c;
     gzip_flag := v |}.

(** Lines 65-68: [set_addr]. *)
Definition set_addr (src_addr dst_addr : bytes) (c : custom_parser) : custom_parser :=
  {| parser := parser c; streams := streams c; header := header c; msg_body := msg_body c;
     complete_flag := complete_flag c;
     address := <[RESPONSE := dst_addr]> (<[REQUEST := src_addr]> (address c));
     url := url c; method := method c; host := host c;
     temp_header_field := temp_header_field c; gzip_flag := gzip_flag c |}.

(** Lines 61-63: [get_response_body]. *)
Definition get_response_body (c : custom_parser) : bytes := msg_body c !!! RESPONSE.

End members.

(** ** The callbacks *)

(** What a callback hands back: the [int] it returns, the object it has
    updated and what it has written. *)
Record returned `{TokenParser} := Returned {
  ret_value : Z;
  ret_self : custom_parser;
  ret_out : list output
}.

Section callbacks.
Context `{TokenParser} `{Decompressor} `{Colors}.
Implicit Types (cb : callback) (buf : bytes) (pos : nat) (self : custom_parser).

Definition quiet (self : custom_parser) : returned :=
  {| ret_value := 0; ret_self := self; ret_out := [] |}.

(** Lines 70-75.  [buf] is the buffer [at] points into and [pos] the
    offset of [at] in it. *)
Definition on_url cb buf pos self : returned :=
  quiet (set_method (http_method_str (cb_method cb))
           (set_url (slice buf pos (cb_length cb)) self)).

(** Lines 77-86. *)
Definition on_header_field cb buf pos self : returned :=
  quiet (set_temp_header_field (lower_field (drop pos buf) (cb_length cb)) self).

(** Lines 88-101.  [strstr] scans the C string that starts at [at]. *)
Definition on_header_value cb buf pos self : returned :=
  if decide (cb_type cb = HTTP_RESPONSE) then
    if decide (temp_header_field self = lit "content-encoding") then
      if strstr (cstr_at buf pos) (lit "gzip") is Some _
      then quiet (set_gzip_flag true self)
      else quiet self
    else quiet self
  else
    if decide (temp_header_field self = lit "host")
    then quiet (set_host (slice buf pos (cb_length cb)) self)
    else quiet self.

(** Lines 103-109. *)
Definition on_headers_complete cb self : returned :=
  match direction_of (cb_type cb) with
  | Some d =>
      quiet (set_header
               (<[d := take (cb_nread cb) (raw (streams self !!! d))]> (header self))
               self)
  | None => quiet self
  end.

(** Lines 111-117. *)
Definition on_body cb buf pos self : returned :=
  match direction_of (cb_type cb) with
  | Some d =>
      quiet (set_msg_body
               (<[d := msg_body self !!! d ++ slice buf pos (cb_length cb)]> (msg_body self))
               self)
  | None => quiet self
  end.

(** The message of line 129. *)
Definition decompress_error : bytes :=
  ANSI_COLOR_RED ++ lit "[decompress error]" ++ ANSI_COLOR_RESET ++ endl.

(** Lines 119-133. *)
Definition on_message_complete cb self : returned :=
  let self1 :=
    match direction_of (cb_type cb) with
    | Some d => set_complete_flag (<[d := true]> (complete_flag self)) self
    | None => self
    end in
  if gzip_flag self1 then
    match gzip_decompress (msg_body self1 !!! RESPONSE) with
    | Some new_body =>
        quiet (set_msg_body (<[RESPONSE := new_body]> (msg_body self1)) self1)
    | None =>
        {| ret_value := 0; ret_self := self1; ret_out := [Stderr decompress_error] |}
    end
  else quiet self1.

(** Lines 12-18: the settings table.  [base] is the offset in [buf] of the
    data given to [http_parser_execute]; the callback's [at] counts from
    there. *)
Definition call (buf : bytes) (base : nat) cb self : returned :=
  match cb_kind cb with
  | URL => on_url cb buf (base + cb_at cb) self
  | HEADER_FIELD => on_header_field cb buf (base + cb_at cb) self
  | HEADER_VALUE => on_header_value cb buf (base + cb_at cb) self
  | HEADERS_COMPLETE => on_headers_complete cb self
  | BODY => on_body cb buf (base + cb_at cb) self
  | MESSAGE_COMPLETE => on_message_complete cb self
  end.

(** The callbacks of one [http_parser_execute], in order, with what they
    write. *)
Fixpoint run_callbacks (buf : bytes) (base : nat) (cbs : list callback) self
    : custom_parser * list output :=
  match cbs with
  | [] => (self, [])
  | cb :: cbs' =>
      let r := call buf base cb self in
      let '(self', out) := run_callbacks buf base cbs' (ret_self r) in
      (self', ret_out r ++ out)
  end.

End callbacks.

(** ** A concrete exchange

    A request and two responses with the callbacks http_parser makes on
    them, as a table for the scripted parser of file External; a
    decompressor that knows the one compressed body. *)

Section exchange_demo_data.

Definition demo_request : bytes :=
  lit "GET /x HTTP/1.1" ++ crlf ++ lit "Host: a.example" ++ crlf ++ crlf.

Definition demo_response : bytes :=
  lit "HTTP/1.1 200 OK" ++ crlf ++ lit "Content-Encoding: gzip" ++ crlf ++
  lit "Content-Length: 2" ++ crlf ++ crlf ++ lit "ZZ".

(** A response that is not compressed and says ["gzip"] in a later header. *)
Definition demo_response_identity : bytes :=
  lit "HTTP/1.1 200 OK" ++ crlf ++ lit "Content-Encoding: identity" ++ crlf ++
  lit "X-Note: no gzip here" ++ crlf ++ lit "Content-Length: 2" ++ crlf ++ crlf ++
  lit "hi".

(** The compressed response cut in two segments inside its body. *)
Definition demo_response_head : bytes := take 63 demo_response.
Definition demo_response_tail : bytes := drop 63 demo_response.

Definition demo_callback (t : http_parser_type) (k : callback_kind)
    (at_ len : nat) : callback :=
  {| cb_kind := k; cb_type := t; cb_nread := at_ + len; cb_method := 1;
     cb_at := at_; cb_length := len |}.

Definition demo_table : list (bytes * list callback) :=
  [ (demo_request,
     [ demo_callback HTTP_REQUEST URL 4 2;
       demo_callback HTTP_REQUEST HEADER_FIELD 17 4;
       demo_callback HTTP_REQUEST HEADER_VALUE 23 9;
       demo_callback HTTP_REQUEST HEADERS_COMPLETE 36 0;
       demo_callback HTTP_REQUEST MESSAGE_COMPLETE 36 0 ]);
    (demo_response,
     [ demo_callback HTTP_RESPONSE HEADER_FIELD 17 16;
       demo_callback HTTP_RESPONSE HEADER_VALUE 35 4;
       demo_callback HTTP_RESPONSE HEADER_FIELD 41 14;
       demo_callback HTTP_RESPONSE HEADER_VALUE 57 1;
       demo_callback HTTP_RESPONSE HEADERS_COMPLETE 62 0;
       demo_callback HTTP_RESPONSE BODY 62 2;
       demo_callback HTTP_RESPONSE MESSAGE_COMPLETE 64 0 ]);
    (demo_response_head,
     [ demo_callback HTTP_RESPONSE HEADER_FIELD 17 16;
       demo_callback HTTP_RESPONSE HEADER_VALUE 35 4;
       demo_callback HTTP_RESPONSE HEADER_FIELD 41 14;
       demo_callback HTTP_RESPONSE HEADER_VALUE 57 1;
       demo_callback HTTP_RESPONSE HEADERS_COMPLETE 62 0;
       demo_callback HTTP_RESPONSE BODY 62 1 ]);
    (demo_response_tail,
     [ demo_callback HTTP_RESPONSE BODY 0 1;
       demo_callback HTTP_RESPONSE MESSAGE_COMPLETE 1 0 ]);
    (demo_response_identity,
     [ demo_callback HTTP_RESPONSE HEADER_FIELD 17 16;
       demo_callback HTTP_RESPONSE HEADER_VALUE 35 8;
       demo_callback HTTP_RESPONSE HEADER_FIELD 45 6;
       demo_callback HTTP_RESPONSE HEADER_VALUE 53 12;
       demo_callback HTTP_RESPONSE HEADER_FIELD 67 14;
       demo_callback HTTP_RESPONSE HEADER_VALUE 83 1;
       demo_callback HTTP_RESPONSE HEADERS_COMPLETE 88 0;
       demo_callback HTTP_RESPONSE BODY 88 2;
       demo_callback HTTP_RESPONSE MESSAGE_COMPLETE 90 0 ]) ].

Definition demo_method_str (m : Z) : bytes :=
  if decide (m = 1) then lit "GET" else lit "<unknown>".

Definition demo_parser : TokenParser :=
  scripted_parser (table_script demo_table) demo_method_str.

Definition demo_decompressor : Decompressor := decompress_one (lit "ZZ") (lit "hello").

#[local] Existing Instances demo_parser demo_decompressor ansi_colors.

(** The callbacks of the request, run on a new object that holds the
    request as its reassembled stream. *)
Definition demo_after_request : custom_parser :=
  (run_callbacks demo_request 0 (table_script demo_table (http_parser_init HTTP_REQUEST) demo_request)
     (set_streams (<[REQUEST := expecting demo_request 37]> (both stream_init))
        custom_parser_init)).1.

(** The object when the value of the response's [Content-Encoding] is
    reported, and when its body has been collected. *)
Definition demo_at_value : custom_parser :=
  set_temp_header_field (lit "content-encoding") demo_after_request.

Definition demo_at_complete : custom_parser :=
  set_gzip_flag true (set_msg_body (<[RESPONSE := lit "ZZ"]> (both [])) demo_after_request).

End exchange_demo_data.


(** ** Lemmas on indexed members *)

Section per_direction.
Context {A : Type}.
Implicit Types (x : per_direction A) (d : direction) (v : A).

Lemma lookup_total_insert_eq_pd x d v : <[d := v]> x !!! d = v.
Proof. by destruct d. Qed.

Lemma lookup_total_insert_ne_pd x d d' v : d ≠ d' → <[d := v]> x !!! d' = x !!! d'.
Proof. by destruct d, d'. Qed.

Lemma insert_insert_pd x d v w : <[d := v]> (<[d := w]> x) = <[d := v]> x.
Proof. by destruct d. Qed.

Lemma lookup_total_both d v : both v !!! d = v.
Proof. by destruct d. Qed.

Lemma other_ne d : other d ≠ d.
Proof. by destruct d. Qed.

Lemma direction_of_type_of d : direction_of (type_of d) = Some d.
Proof. by destruct d. Qed.

Lemma direction_of_Some t d : direction_of t = Some d ↔ t = type_of d.
Proof. destruct t, d; simpl; split; congruence. Qed.

Lemma lookup_total_insert_other_pd x d v : <[d := v]> x !!! other d = x !!! other d.
Proof. by destruct d. Qed.

End per_direction.

(** Rewriting with [autorewrite with members] normalises reads of indexed
    members behind writes. *)
#[export] Hint Rewrite @lookup_total_insert_eq_pd @lookup_total_insert_other_pd
  @insert_insert_pd @lookup_total_both : members.

(** ** Lemmas on the callbacks *)

Section callback_lemmas.
Context `{TokenParser} `{Decompressor} `{Colors}.
Implicit Types (cb : callback) (buf : bytes) (pos base : nat) (self : custom_parser).

Lemma run_callbacks_app buf base cbs1 cbs2 self :
  run_callbacks buf base (cbs1 ++ cbs2) self =
    let '(self1, out1) := run_callbacks buf base cbs1 self in
    let '(self2, out2) := run_callbacks buf base cbs2 self1 in
    (self2, out1 ++ out2).
Proof.
  revert self. induction cbs1 as [|cb cbs1 IH]; intros self; simpl.
  - by destruct (run_callbacks buf base cbs2 self).
  - rewrite IH. destruct (run_callbacks buf base cbs1 _) as [self1 out1].
    destruct (run_callbacks buf base cbs2 self1) as [self2 out2].
    by rewrite app_assoc.
Qed.

(** A property of the object that every callback (of those that satisfy
    [Q]) keeps is kept by a whole [http_parser_execute]. *)
Lemma run_callbacks_ind_on (Q : callback → Prop) (P : custom_parser → Prop)
    buf base cbs self :
  Forall Q cbs →
  (∀ cb self', Q cb → P self' → P (ret_self (call buf base cb self'))) →
  P self → P (run_callbacks buf base cbs self).1.
Proof.
  intros Hall Hstep. revert self.
  induction Hall as [|cb cbs HQ _ IH]; intros self HP; simpl; [done|].
  specialize (IH (ret_self (call buf base cb self)) (Hstep _ _ HQ HP)).
  by destruct (run_callbacks buf base cbs _).
Qed.

Lemma run_callbacks_ind (P : custom_parser → Prop) buf base cbs self :
  (∀ cb self', P self' → P (ret_self (call buf base cb self'))) →
  P self → P (run_callbacks buf base cbs self).1.
Proof.
  intros Hstep. apply (run_callbacks_ind_on (λ _, True)); [|by auto].
  by apply Forall_forall.
Qed.

Lemma on_message_complete_self cb self :
  ret_self (on_message_complete cb self) =
    let self1 :=
      match direction_of (cb_type cb) with
      | Some d => set_complete_flag (<[d := true]> (complete_flag self)) self
      | None => self
      end in
    if gzip_flag self1 then
      set_msg_body
        (<[RESPONSE := default (msg_body self1 !!! RESPONSE)
                         (gzip_decompress (msg_body self1 !!! RESPONSE))]>
           (msg_body self1)) self1
    else self1.
Proof.
  unfold on_message_complete. simpl.
  destruct (direction_of (cb_type cb)) as [d|]; simpl;
    destruct (gzip_flag self) eqn:Hg; try done;
    destruct (gzip_decompress _) eqn:Hz; simpl; try done;
    destruct self as [????? ? ? ? ? ? ?]; simpl in *;
    unfold set_msg_body, set_complete_flag; simpl; f_equal;
    by destruct msg_body0.
Qed.

(** What [on_message_complete] writes: the message of line 129 when the
    flag is set and the decompression fails, nothing otherwise. *)
Lemma on_message_complete_out cb self :
  ret_out (on_message_complete cb self) =
    if gzip_flag self then
      if gzip_decompress (msg_body self !!! RESPONSE) is Some _ then []
      else [Stderr decompress_error]
    else [].
Proof.
  unfold on_message_complete.
  destruct (direction_of (cb_type cb)) as [d|]; simpl;
    destruct (gzip_flag self); try done; by destruct (gzip_decompress _).
Qed.

(** The streams are not touched by any callback. *)
Lemma call_streams buf base cb self :
  streams (ret_self (call buf base cb self)) = streams self.
Proof.
  unfold call, on_url, on_header_field, on_header_value, on_headers_complete,
    on_body, on_message_complete.
  repeat case_match; done.
Qed.

Lemma run_callbacks_streams buf base cbs self :
  streams (run_callbacks buf base cbs self).1 = streams self.
Proof.
  apply (run_callbacks_ind (λ c, streams c = streams self)); [|done].
  intros cb self' <-. apply call_streams.
Qed.

Lemma call_parser buf base cb self :
  parser (ret_self (call buf base cb self)) = parser self.
Proof.
  unfold call, on_url, on_header_field, on_header_value, on_headers_complete,
    on_body, on_message_complete.
  repeat case_match; done.
Qed.

Lemma run_callbacks_parser buf base cbs self :
  parser (run_callbacks buf base cbs self).1 = parser self.
Proof.
  apply (run_callbacks_ind (λ c, parser c = parser self)); [|done].
  intros cb self' <-. apply call_parser.
Qed.

Lemma on_header_value_gzip_flag cb buf pos self :
  cb_type cb = HTTP_RESPONSE →
  gzip_flag (ret_self (on_header_value cb buf pos self)) =
    gzip_flag self ||
    (bool_decide (temp_header_field self = lit "content-encoding") &&
     bool_decide (is_Some (strstr (cstr_at buf pos) (lit "gzip")))).
Proof.
  intros Ht. unfold on_header_value. rewrite decide_True by done.
  case_bool_decide; [rewrite decide_True by done|rewrite decide_False by done];
    simpl; [|by rewrite orb_false_r].
  destruct (strstr _ _); simpl; [by rewrite orb_true_r|by rewrite orb_false_r].
Qed.

End callback_lemmas.

(** ** Properties of the callbacks *)

Section callback_properties.
Context `{TokenParser} `{Decompressor} `{Colors}.
Implicit Types (cb : callback) (buf pre value rest : bytes) (pos base : nat).
Implicit Types (self : custom_parser).

(** Every callback returns 0, whatever the parser reports and whatever
    the object holds: the token parser is never stopped or redirected by a
    callback, so what [http_parser_execute] does is fixed by the parser and
    the bytes alone. *)
Lemma call_returns_zero buf base cb self : ret_value (call buf base cb self) = 0.
Proof.
  unfold call, on_url, on_header_field, on_header_value, on_headers_complete,
    on_body, on_message_complete.
  repeat case_match; done.
Qed.

(** C21. [on_header_value] on a response sets [gzip_flag] exactly when the
    current field name is [content-encoding] and ["gzip"] occurs somewhere
    in the C string that starts at the value; it never clears the flag, and
    leaves [host] alone. *)
Theorem on_header_value_response cb buf pos self :
  cb_type cb = HTTP_RESPONSE →
  gzip_flag (ret_self (on_header_value cb buf pos self)) =
    gzip_flag self ||
    (bool_decide (temp_header_field self = lit "content-encoding") &&
     bool_decide (is_Some (strstr (cstr_at buf pos) (lit "gzip")))) ∧
  host (ret_self (on_header_value cb buf pos self)) = host self.
Proof.
  intros Ht. split; [by apply on_header_value_gzip_flag|].
  unfold on_header_value. rewrite decide_True by done. by repeat case_match.
Qed.

(** C20. The scan for ["gzip"] is not bounded by the value's [length]: it
    runs to the first NUL of the buffer.  A response whose
    [Content-Encoding] value does not mention gzip still gets [gzip_flag]
    set when ["gzip"] occurs anywhere later in the bytes received with it,
    in another header or in the body. *)
Theorem on_header_value_scans_past_value cb pre value rest j self :
  cb_type cb = HTTP_RESPONSE → cb_length cb = length value →
  temp_header_field self = lit "content-encoding" →
  x00 ∉ value → occurs_at (lit "gzip") (until_nul rest) j →
  gzip_flag (ret_self (on_header_value cb (pre ++ value ++ rest) (length pre) self)) = true.
Proof.
  intros Ht _ Hf Hnul Hocc. rewrite on_header_value_gzip_flag by done.
  rewrite (bool_decide_eq_true_2 _ Hf), bool_decide_eq_true_2; [by rewrite orb_true_r|].
  unfold cstr_at. rewrite drop_app_length, until_nul_app by done.
  apply (strstr_complete _ _ (length value + j)). destruct Hocc as [Hp Hj]. split.
  - by rewrite drop_app_add'.
  - rewrite length_app. lia.
Qed.

(** [on_header_value] on a request (or a parser of type
    [HTTP_BOTH]) stores the value as [host] when the current field name is
    [host], and nothing else; [gzip_flag] is not touched. *)
Lemma on_header_value_request cb buf pos self :
  cb_type cb ≠ HTTP_RESPONSE →
  host (ret_self (on_header_value cb buf pos self)) =
    (if decide (temp_header_field self = lit "host")
     then slice buf pos (cb_length cb) else host self) ∧
  gzip_flag (ret_self (on_header_value cb buf pos self)) = gzip_flag self.
Proof.
  intros Ht. unfold on_header_value. rewrite decide_False by done.
  by case_decide.
Qed.

(** C23. What the callbacks leave in [url], [method] and [host].  [on_url]
    stores the [length] bytes at [at] as the url and the name of the
    parser's method; [on_header_value] of a parser that is not of type
    response stores the [length] bytes at [at] as the host when the field
    name before it was [host]; no other callback touches the three. *)
Theorem call_url_method_host buf base cb self :
  let self' := ret_self (call buf base cb self) in
  let value := take (cb_length cb) (drop (base + cb_at cb) buf) in
  match cb_kind cb with
  | URL =>
      url self' = value ∧ method self' = http_method_str (cb_method cb) ∧
      host self' = host self
  | HEADER_VALUE =>
      url self' = url self ∧ method self' = method self ∧
      host self' =
        if bool_decide (cb_type cb ≠ HTTP_RESPONSE ∧ temp_header_field self = lit "host")
        then value else host self
  | _ => url self' = url self ∧ method self' = method self ∧ host self' = host self
  end.
Proof.
  unfold call. destruct (cb_kind cb); simpl; [done|done| | | |].
  - unfold on_header_value. rewrite (bool_decide_decide (_ ∧ _)).
    repeat case_decide; repeat case_match; simpl; try done; naive_solver.
  - unfold on_headers_complete. by case_match.
  - unfold on_body. by case_match.
  - rewrite on_message_complete_self. simpl. by repeat case_match.
Qed.

(** C37. [on_headers_complete] stores as the direction's header block the
    first [nread] bytes of the direction's reassembled stream: always a
    prefix of [raw], from its very first byte. *)
Theorem on_headers_complete_prefix cb d self :
  cb_type cb = type_of d →
  header (ret_self (on_headers_complete cb self)) !!! d =
    take (cb_nread cb) (raw (streams self !!! d)) ∧
  header (ret_self (on_headers_complete cb self)) !!! other d = header self !!! other d.
Proof.
  intros Ht. unfold on_headers_complete. rewrite Ht, direction_of_type_of. simpl.
  by autorewrite with members.
Qed.

(** C22. [on_message_complete] marks the direction complete and, whenever
    [gzip_flag] is set, replaces the response body by its decompression; if
    decompression fails the body is kept as received and the one thing
    written is the red line [[decompress error]] on the error stream.  This
    holds for a request that completes as well as for a response. *)
Theorem on_message_complete_decompresses cb d self :
  cb_type cb = type_of d → gzip_flag self = true →
  complete_flag (ret_self (on_message_complete cb self)) !!! d = true ∧
  msg_body (ret_self (on_message_complete cb self)) !!! RESPONSE =
    default (msg_body self !!! RESPONSE) (gzip_decompress (msg_body self !!! RESPONSE)) ∧
  msg_body (ret_self (on_message_complete cb self)) !!! REQUEST =
    msg_body self !!! REQUEST ∧
  ret_out (on_message_complete cb self) =
    if gzip_decompress (msg_body self !!! RESPONSE) is Some _ then []
    else [Stderr (ANSI_COLOR_RED ++ lit "[decompress error]" ++ ANSI_COLOR_RESET ++ endl)].
Proof.
  intros Ht Hg. rewrite on_message_complete_self, on_message_complete_out.
  rewrite Ht, direction_of_type_of. simpl. rewrite Hg. simpl. by destruct d.
Qed.

(** Without [gzip_flag], [on_message_complete] only sets the
    direction's completion flag: both bodies are what [on_body] collected,
    and nothing is written. *)
Lemma on_message_complete_plain cb self :
  gzip_flag self = false →
  msg_body (ret_self (on_message_complete cb self)) = msg_body self ∧
  ret_out (on_message_complete cb self) = [] ∧
  ∀ d, cb_type cb = type_of d →
       complete_flag (ret_self (on_message_complete cb self)) !!! d = true.
Proof.
  intros Hg. unfold on_message_complete.
  destruct (direction_of (cb_type cb)) as [d|] eqn:Hd; simpl; rewrite Hg; simpl.
  - repeat split. intros d' Hd'. rewrite Hd', direction_of_type_of in Hd.
    simplify_eq. apply lookup_total_insert_eq_pd.
  - repeat split. intros d' Hd'. by rewrite Hd', direction_of_type_of in Hd.
Qed.

(** C24. No callback ever clears [gzip_flag]: once a response has announced
    gzip, every later message that completes on the same object has the
    response body run through the decompressor again. *)
Theorem run_callbacks_gzip_flag_sticky buf base cbs self :
  gzip_flag self = true → gzip_flag (run_callbacks buf base cbs self).1 = true.
Proof.
  apply (run_callbacks_ind (λ c, gzip_flag c = true)).
  intros cb self' Hg. rewrite <-Hg.
  unfold call, on_url, on_header_field, on_header_value, on_headers_complete,
    on_body. destruct (cb_kind cb); repeat case_match; try done.
  rewrite on_message_complete_self. simpl. by repeat case_match.
Qed.

(** C38. [on_body] appends: the body chunks of one direction reported by
    one [http_parser_execute] end up behind what the direction's body held,
    in the order reported. *)
Theorem run_callbacks_body_appends buf base cbs d self :
  Forall (λ cb, cb_kind cb = BODY ∧ cb_type cb = type_of d) cbs →
  msg_body (run_callbacks buf base cbs self).1 !!! d =
    msg_body self !!! d ++
    mjoin ((λ cb, slice buf (base + cb_at cb) (cb_length cb)) <$> cbs).
Proof.
  revert self. induction cbs as [|cb cbs IH]; intros self Hall; simpl.
  { by rewrite app_nil_r. }
  apply Forall_cons in Hall as [[Hk Ht] Hall].
  specialize (IH (ret_self (call buf base cb self)) Hall).
  destruct (run_callbacks buf base cbs _) as [self' out]. simpl in *.
  rewrite IH. unfold call, on_body. rewrite Hk, Ht, direction_of_type_of. simpl.
  autorewrite with members. by rewrite <-app_assoc.
Qed.

End callback_properties.

(** ** The callbacks on the concrete exchange *)

Section exchange_demo.
#[local] Existing Instances demo_parser demo_decompressor ansi_colors.

Example demo_request_fields :
  url demo_after_request = lit "/x" ∧ method demo_after_request = lit "GET" ∧
  host demo_after_request = lit "a.example" ∧
  header demo_after_request !!! REQUEST = demo_request ∧
  complete_flag demo_after_request !!! REQUEST = true ∧
  gzip_flag demo_after_request = false.
Proof. by vm_compute. Qed.

Example on_header_value_overrun :
  gzip_flag (ret_self (on_header_value (demo_callback HTTP_RESPONSE HEADER_VALUE 35 8)
                         demo_response_identity 35 demo_at_value)) = true.
Proof. by vm_compute. Qed.

Lemma on_header_value_response_witness :
  gzip_flag (ret_self (on_header_value (demo_callback HTTP_RESPONSE HEADER_VALUE 35 4)
                         demo_response 35 demo_at_value)) =
    gzip_flag demo_at_value ||
    (bool_decide (temp_header_field demo_at_value = lit "content-encoding") &&
     bool_decide (is_Some (strstr (cstr_at demo_response 35) (lit "gzip")))) ∧
  host (ret_self (on_header_value (demo_callback HTTP_RESPONSE HEADER_VALUE 35 4)
                    demo_response 35 demo_at_value)) = host demo_at_value.
Proof. by apply on_header_value_response. Defined.

Lemma on_header_value_scans_past_value_witness :
  gzip_flag (ret_self (on_header_value (demo_callback HTTP_RESPONSE HEADER_VALUE 18 8)
                         (lit "Content-Encoding: " ++ lit "identity" ++
                          crlf ++ lit "X-Note: no gzip here" ++ crlf)
                         (length (lit "Content-Encoding: ")) demo_at_value)) = true.
Proof. apply (on_header_value_scans_past_value _ _ _ _ 13); concrete. Defined.

Lemma on_header_value_request_witness :
  host (ret_self (on_header_value (demo_callback HTTP_REQUEST HEADER_VALUE 23 9)
                    demo_request 23
                    (set_temp_header_field (lit "host") custom_parser_init))) =
    (if decide (temp_header_field (set_temp_header_field (lit "host") custom_parser_init)
                = lit "host")
     then slice demo_request 23 9 else []) ∧
  gzip_flag (ret_self (on_header_value (demo_callback HTTP_REQUEST HEADER_VALUE 23 9)
                         demo_request 23
                         (set_temp_header_field (lit "host") custom_parser_init))) = false.
Proof. by apply on_header_value_request. Defined.

Lemma on_headers_complete_prefix_witness :
  header (ret_self (on_headers_complete (demo_callback HTTP_REQUEST HEADERS_COMPLETE 36 0)
                      demo_after_request)) !!! REQUEST =
    take 36 (raw (streams demo_after_request !!! REQUEST)) ∧
  header (ret_self (on_headers_complete (demo_callback HTTP_REQUEST HEADERS_COMPLETE 36 0)
                      demo_after_request)) !!! RESPONSE =
    header demo_after_request !!! RESPONSE.
Proof.
  by apply (on_headers_complete_prefix
              (demo_callback HTTP_REQUEST HEADERS_COMPLETE 36 0) REQUEST).
Defined.

Lemma on_message_complete_decompresses_witness :
  complete_flag (ret_self (on_message_complete
                   (demo_callback HTTP_REQUEST MESSAGE_COMPLETE 36 0) demo_at_complete))
    !!! REQUEST = true ∧
  msg_body (ret_self (on_message_complete
              (demo_callback HTTP_REQUEST MESSAGE_COMPLETE 36 0) demo_at_complete))
    !!! RESPONSE =
    default (msg_body demo_at_complete !!! RESPONSE)
      (gzip_decompress (msg_body demo_at_complete !!! RESPONSE)) ∧
  msg_body (ret_self (on_message_complete
              (demo_callback HTTP_REQUEST MESSAGE_COMPLETE 36 0) demo_at_complete))
    !!! REQUEST = msg_body demo_at_complete !!! REQUEST ∧
  ret_out (on_message_complete
             (demo_callback HTTP_REQUEST MESSAGE_COMPLETE 36 0) demo_at_complete) =
    if gzip_decompress (msg_body demo_at_complete !!! RESPONSE) is Some _ then []
    else [Stderr (ANSI_COLOR_RED ++ lit "[decompress error]" ++ ANSI_COLOR_RESET ++ endl)].
Proof. by apply (on_message_complete_decompresses _ REQUEST). Defined.

Lemma on_message_complete_plain_witness :
  msg_body (ret_self (on_message_complete
              (demo_callback HTTP_REQUEST MESSAGE_COMPLETE 36 0) demo_after_request)) =
    msg_body demo_after_request ∧
  ret_out (on_message_complete
             (demo_callback HTTP_REQUEST MESSAGE_COMPLETE 36 0) demo_after_request) = [] ∧
  ∀ d, cb_type (demo_callback HTTP_REQUEST MESSAGE_COMPLETE 36 0) = type_of d →
       complete_flag (ret_self (on_message_complete
                        (demo_callback HTTP_REQUEST MESSAGE_COMPLETE 36 0)
                        demo_after_request)) !!! d = true.
Proof. by apply on_message_complete_plain. Defined.

Lemma run_callbacks_gzip_flag_sticky_witness :
  gzip_flag (run_callbacks demo_request 0
               (table_script demo_table (http_parser_init HTTP_REQUEST) demo_request)
               demo_at_complete).1 = true.
Proof. by apply run_callbacks_gzip_flag_sticky. Defined.

Lemma run_callbacks_body_appends_witness :
  msg_body (run_callbacks demo_response 0
              [demo_callback HTTP_RESPONSE BODY 62 1; demo_callback HTTP_RESPONSE BODY 63 1]
              demo_after_request).1 !!! RESPONSE =
    msg_body demo_after_request !!! RESPONSE ++
    mjoin ((λ cb, slice demo_response (0 + cb_at cb) (cb_length cb)) <$>
           [demo_callback HTTP_RESPONSE BODY 62 1; demo_callback HTTP_RESPONSE BODY 63 1]).
Proof.
  apply (run_callbacks_body_appends _ _ _ RESPONSE). by repeat constructor.
Defined.

End exchange_demo.
