(* ===== verification/Parse.v ===== *)
(** * [custom_parser::parse]: reassembly, then the token parser on the new bytes

    Models the whole of [custom_parser::parse] (src/custom_parser.cpp, lines
    21-59): the re-initialisation of the one shared token parser when the
    direction changes, the reassembly of file Reassembly on the direction's
    members, the call of [http_parser_execute] on the bytes that were added
    to [raw] by this call, the callbacks of file Exchange that it makes, and
    the return value.  A call with [HTTP_BOTH] reaches line 54 with a null
    [str]; that is the outcome [Crashed]. *)

From Stdlib Require Import ZArith Lia.
From stdpp Require Import gmap.
From S2P Require Import Prelude CString Reassembly Ordering External Exchange.

(** ** The handler *)

(** How a call ends: by dereferencing the null pointer, or by returning
    [ret], with the object, what was written, and the bytes that were given
    to [http_parser_execute] (none when it was not called). *)
Inductive parse_result `{TokenParser} :=
  | Crashed
  | Done (ret : bool) (self : custom_parser) (out : list output) (fed : bytes).

Section parse.
Context `{TokenParser} `{Decompressor} `{Colors}.

(** Lines 22-24. *)
Definition select_parser (t : http_parser_type) (self : custom_parser)
    : http_parser token_state :=
  if decide (parser_type (parser self) ≠ t) then http_parser_init t else parser self.

(** Lines 54-58, on the object [self1] that holds the reassembled stream
    [s'] of direction [d]. *)
Definition parse_new_bytes (orig_size : nat) (s' : stream) (self1 : custom_parser)
    : parse_result :=
  if decide (orig_size < length (raw s'))%nat then
    let data := drop orig_size (raw s') in
    let ex := http_parser_execute (parser self1) data in
    let '(self2, out) := run_callbacks (raw s') orig_size (ex_callbacks ex) self1 in
    Done (bool_decide (0 < ex_nparsed ex)%nat && errno_ok (ex_parser ex))
      (set_parser (ex_parser ex) self2) out data
  else Done true self1 [] [].

(** Lines 21-59. *)
Definition parse (packet : packet_info) (t : http_parser_type) (self : custom_parser)
    : parse_result :=
  let self0 := set_parser (select_parser t self) self in
  match direction_of (parser_type (parser self0)) with
  | None => Crashed
  | Some d =>
      let s := streams self0 !!! d in
      let orig_size := length (raw s) in
      match absorb packet s with
      | None => Done true self0 [] []
      | Some s' =>
          parse_new_bytes orig_size s'
            (set_streams (<[d := s']> (streams self0)) self0)
      end
  end.

(** A capture: the calls of [parse] in arrival order.  The result is the
    object after the last call, what was written, and the data of every
    call of the token parser; [None] if a call crashed. *)
Fixpoint parse_all (calls : list (packet_info * http_parser_type))
    (self : custom_parser) : option (custom_parser * list output * list bytes) :=
  match calls with
  | [] => Some (self, [], [])
  | (packet, t) :: calls' =>
      match parse packet t self with
      | Crashed => None
      | Done _ self' out fed =>
          match parse_all calls' self' with
          | Some (self'', out', feds) => Some (self'', out ++ out', fed :: feds)
          | None => None
          end
      end
  end.

(** The calls that deliver the segments [pkts] to direction [d]. *)
Definition deliver (d : direction) (pkts : list packet_info)
    : list (packet_info * http_parser_type) :=
  (λ pkt, (pkt, type_of d)) <$> pkts.

(** The segments that a capture delivers to direction [d], in order. *)
Definition segments_of (d : direction) (calls : list (packet_info * http_parser_type))
    : list packet_info :=
  omap (λ c, if decide (c.2 = type_of d) then Some c.1 else None) calls.

(** What a call for direction [d] on the object [self] leaves of the
    other direction in the object [c]. *)
Definition untouched d self (c : custom_parser) : Prop :=
  header c !!! other d = header self !!! other d ∧
  complete_flag c !!! other d = complete_flag self !!! other d ∧
  (d = RESPONSE → msg_body c !!! REQUEST = msg_body self !!! REQUEST) ∧
  (d = REQUEST → gzip_flag self = false →
   gzip_flag c = false ∧ msg_body c !!! RESPONSE = msg_body self !!! RESPONSE).

End parse.

(** ** A concrete capture *)

Section parse_demo_data.
#[local] Existing Instances demo_parser demo_decompressor ansi_colors.

(** The object a call leaves. *)
Definition self_of (r : parse_result) : custom_parser :=
  match r with Done _ self _ _ => self | Crashed => custom_parser_init end.

Definition demo_exchange : list (packet_info * http_parser_type) :=
  [ (Packet 1 demo_request, HTTP_REQUEST); (Packet 7001 demo_response, HTTP_RESPONSE) ].

(** The members of the object that a capture fills. *)
Definition fields (self : custom_parser) :=
  (url self, method self, host self, header self, msg_body self,
   complete_flag self, gzip_flag self).

Definition fields_of (r : parse_result) :=
  match r with
  | Done ret self out fed => Some (ret, fields self, out, fed)
  | Crashed => None
  end.

Definition demo_exchanged : custom_parser :=
  default custom_parser_init ((λ r, r.1.1) <$> parse_all demo_exchange custom_parser_init).

(** The object after the request. *)
Definition demo_self : custom_parser :=
  self_of (parse (Packet 1 demo_request) HTTP_REQUEST custom_parser_init).

End parse_demo_data.

(** ** Lemmas on one call *)

Section parse_lemmas.
Context `{TokenParser} `{Decompressor} `{Colors}.
Implicit Types (packet : packet_info) (t : http_parser_type) (d : direction).
Implicit Types (self : custom_parser) (s : stream).

Lemma select_parser_type t self : parser_type (select_parser t self) = t.
Proof.
  unfold select_parser. case_decide as Ht; [done|].
  by destruct (decide (parser_type (parser self) = t)).
Qed.

Lemma select_parser_same t self :
  parser_type (parser self) = t → select_parser t self = parser self.
Proof. intros Ht. unfold select_parser. by rewrite decide_False by tauto. Qed.

Lemma select_parser_switch t self :
  parser_type (parser self) ≠ t → select_parser t self = http_parser_init t.
Proof. intros Ht. unfold select_parser. by rewrite decide_True. Qed.

(** A call with [HTTP_BOTH] never returns: whatever the object holds, the
    guard of line 27 fails, [str] stays null and line 54 dereferences it. *)
Lemma parse_http_both_crashes packet self : parse packet HTTP_BOTH self = Crashed.
Proof. unfold parse. simpl. by rewrite select_parser_type. Qed.

(** [parse] on a direction. *)
Lemma parse_direction packet d self :
  parse packet (type_of d) self =
    let self0 := set_parser (select_parser (type_of d) self) self in
    match absorb packet (streams self !!! d) with
    | None => Done true self0 [] []
    | Some s' =>
        parse_new_bytes (length (raw (streams self !!! d))) s'
          (set_streams (<[d := s']> (streams self)) self0)
    end.
Proof.
  unfold parse. simpl. by rewrite select_parser_type, direction_of_type_of.
Qed.

(** [parse_new_bytes] by what it gives the token parser. *)
Lemma parse_new_bytes_spec orig_size s' self1 :
  parse_new_bytes orig_size s' self1 =
    let fed := drop orig_size (raw s') in
    if decide (fed = []) then Done true self1 [] fed
    else
      let ex := http_parser_execute (parser self1) fed in
      let r := run_callbacks (raw s') orig_size (ex_callbacks ex) self1 in
      Done (bool_decide (0 < ex_nparsed ex)%nat && errno_ok (ex_parser ex))
        (set_parser (ex_parser ex) r.1) r.2 fed.
Proof.
  unfold parse_new_bytes. simpl. case_decide as Hlt.
  - rewrite decide_False; [by destruct (run_callbacks _ _ _ _)|].
    intros Hnil%(f_equal length). rewrite length_drop in Hnil. simpl in Hnil. lia.
  - rewrite drop_ge by lia. by rewrite decide_True.
Qed.

(** [parse] on a direction, composed. *)
Lemma parse_spec packet d self :
  parse packet (type_of d) self =
    let self0 := set_parser (select_parser (type_of d) self) self in
    let s := streams self !!! d in
    let s' := absorb_keep s packet in
    let fed := drop (length (raw s)) (raw s') in
    let self1 := set_streams (<[d := s']> (streams self)) self0 in
    if decide (fed = []) then
      Done true (if absorb packet s is Some _ then self1 else self0) [] []
    else
      let ex := http_parser_execute (parser self0) fed in
      let r := run_callbacks (raw s') (length (raw s)) (ex_callbacks ex) self1 in
      Done (bool_decide (0 < ex_nparsed ex)%nat && errno_ok (ex_parser ex))
        (set_parser (ex_parser ex) r.1) r.2 fed.
Proof.
  rewrite parse_direction. simpl. unfold absorb_keep.
  destruct (absorb packet (streams self !!! d)) as [s'|] eqn:E; simpl.
  - rewrite parse_new_bytes_spec. simpl. by case_decide as Hfed; [rewrite Hfed|].
  - by rewrite drop_all, decide_True.
Qed.

(** Every call on a direction returns; the direction's stream afterwards
    is what reassembly makes of it, the other direction's stream is the
    same, and [fed] is what reassembly added to [raw]. *)
Lemma parse_Done packet d self :
  ∃ ret self' out fed,
    parse packet (type_of d) self = Done ret self' out fed ∧
    streams self' !!! d = absorb_keep (streams self !!! d) packet ∧
    streams self' !!! other d = streams self !!! other d ∧
    raw (streams self' !!! d) = raw (streams self !!! d) ++ fed.
Proof.
  rewrite parse_spec. simpl.
  pose proof (absorb_keep_prefix (streams self !!! d) packet) as [k Hk].
  rewrite Hk, drop_app_length. case_decide as Hfed.
  - subst k. rewrite app_nil_r in *. eexists _, _, _, _. split; [done|].
    unfold absorb_keep in *.
    destruct (absorb packet (streams self !!! d)) as [s'|] eqn:E; simpl in *;
      [|by rewrite app_nil_r].
    autorewrite with members. by rewrite Hk, app_nil_r.
  - eexists _, _, _, _. split; [done|]. simpl. rewrite run_callbacks_streams. simpl.
    by autorewrite with members.
Qed.

(** A capture of one direction never crashes; it reassembles the
    direction's stream as [absorb_all] does and gives the token parser, call
    by call, what this adds to [raw]. *)
Lemma parse_all_deliver d pkts self :
  ∃ self' out feds,
    parse_all (deliver d pkts) self = Some (self', out, feds) ∧
    streams self' !!! d = absorb_all pkts (streams self !!! d) ∧
    streams self' !!! other d = streams self !!! other d ∧
    raw (streams self' !!! d) = raw (streams self !!! d) ++ mjoin feds.
Proof.
  revert self. induction pkts as [|pkt pkts IH]; intros self; simpl.
  { eexists _, _, _. split; [done|]. simpl. by rewrite app_nil_r. }
  destruct (parse_Done pkt d self) as (ret & self1 & out1 & fed & -> & Hd & Ho & Hraw).
  destruct (IH self1) as (self' & out & feds & -> & Hd' & Ho' & Hraw').
  eexists _, _, _. split; [done|].
  rewrite Hraw', Hd', Ho', Hraw, Hd, Ho. simpl. by rewrite app_assoc.
Qed.

Lemma call_untouched buf base cb d self c :
  cb_type cb = type_of d → untouched d self c →
  untouched d self (ret_self (call buf base cb c)).
Proof.
  intros Ht (Hh & Hc & Hb & Hg).
  unfold untouched, call, on_url, on_header_field, on_header_value,
    on_headers_complete, on_body.
  destruct (cb_kind cb); try rewrite on_message_complete_self; rewrite ?Ht;
    destruct d; simpl in *; repeat case_match; simpl; naive_solver.
Qed.

Lemma run_callbacks_untouched buf base d p data self c :
  parser_type p = type_of d → untouched d self c →
  untouched d self
    (run_callbacks buf base (ex_callbacks (http_parser_execute p data)) c).1.
Proof.
  intros Hp Hc.
  apply (run_callbacks_ind_on (λ cb, cb_type cb = type_of d)); [| |done].
  - rewrite <-Hp. apply execute_callback_type. rewrite Hp. by destruct d.
  - intros cb c' ??. by apply call_untouched.
Qed.

Lemma parse_untouched packet d self ret self' out fed :
  parse packet (type_of d) self = Done ret self' out fed → untouched d self self'.
Proof.
  rewrite parse_spec. simpl. case_decide as Hfed; intros; simplify_eq.
  - unfold untouched. by case_match.
  - pose proof (run_callbacks_untouched) as Hu. unfold untouched in *. simpl.
    apply Hu; [apply select_parser_type|done].
Qed.

End parse_lemmas.

(** ** Properties of [parse] *)

Section parse_properties.
Context `{TokenParser} `{Decompressor} `{Colors}.
Implicit Types (packet : packet_info) (t : http_parser_type) (d : direction).
Implicit Types (self : custom_parser) (s : stream).

(** C6. A call of [parse] on a direction returns, and the bytes it gives to
    [http_parser_execute] are exactly the bytes this call has added to the
    direction's [raw]: nothing is parsed twice and nothing is skipped.  When
    nothing was added the parser is not called and the call returns true;
    otherwise it returns whether the parser consumed something and reports
    no error. *)
Theorem parse_feeds_new_bytes packet d self :
  ∃ ret self' out fed,
    parse packet (type_of d) self = Done ret self' out fed ∧
    raw (streams self' !!! d) = raw (streams self !!! d) ++ fed ∧
    if decide (fed = []) then
      ret = true ∧ out = [] ∧ parser self' = select_parser (type_of d) self
    else
      let ex := http_parser_execute (select_parser (type_of d) self) fed in
      ret = bool_decide (0 < ex_nparsed ex)%nat && errno_ok (ex_parser ex) ∧
      parser self' = ex_parser ex.
Proof.
  destruct (parse_Done packet d self) as (ret & self' & out & fed & Hp & _ & _ & Hraw).
  exists ret, self', out, fed. split_and!; [done..|].
  rewrite parse_spec in Hp. simpl in Hp.
  destruct (decide (drop _ _ = [])) as [Hfed|Hfed]; simplify_eq.
  - rewrite decide_True by done. split_and!; [done..|]. by case_match.
  - by rewrite decide_False.
Qed.

(** C36. A segment below the expected sequence number is ignored by
    [parse]: the call returns true without calling the token parser, and the
    object is unchanged but for the token parser, which has been initialised
    anew if the call is for the other direction than the call before. *)
Theorem parse_retransmission packet d self :
  next_seq (streams self !!! d) ≠ 0 → seq packet < next_seq (streams self !!! d) →
  parse packet (type_of d) self =
    Done true (set_parser (select_parser (type_of d) self) self) [] [].
Proof.
  intros Hn Hlt. rewrite parse_direction. simpl.
  by rewrite (proj2 (absorb_None _ _)).
Qed.

(** A segment ahead of the expected sequence number is stored by
    [parse] and nothing else happens: the token parser is not called, [raw]
    is unchanged and the call returns true. *)
Lemma parse_ahead packet d self :
  next_seq (streams self !!! d) ≠ 0 → next_seq (streams self !!! d) < seq packet →
  drained (streams self !!! d) →
  parse packet (type_of d) self =
    Done true
      (set_streams (<[d := buffer_segment packet (streams self !!! d)]> (streams self))
         (set_parser (select_parser (type_of d) self) self)) [] [].
Proof.
  intros Hn Hlt Hd. rewrite parse_direction. simpl.
  rewrite absorb_ahead_buffers_eq by done.
  rewrite parse_new_bytes_spec. simpl. by rewrite drop_all, decide_True.
Qed.

(** C17. The two directions share one token parser.  A call for the other
    direction than the call before starts from a freshly initialised parser:
    whatever the parser had reached, a message half parsed or an error, is
    forgotten, and the outcome of the call does not depend on it. *)
Theorem parse_switch_forgets packet t self :
  parser_type (parser self) ≠ t →
  parse packet t self = parse packet t (set_parser (http_parser_init t) self).
Proof.
  intros Ht. unfold parse. simpl.
  rewrite select_parser_switch, select_parser_same by done. done.
Qed.

(** C18. A call for one direction leaves the other direction's members as
    they were: its reassembled stream, its header block and its completion
    flag.  The request body survives every call for the response; the
    response body survives a call for the request as long as [gzip_flag] is
    not set. *)
Theorem parse_other_direction packet d self :
  ∃ ret self' out fed,
    parse packet (type_of d) self = Done ret self' out fed ∧
    streams self' !!! other d = streams self !!! other d ∧
    header self' !!! other d = header self !!! other d ∧
    complete_flag self' !!! other d = complete_flag self !!! other d ∧
    (d = RESPONSE ∨ gzip_flag self = false →
     msg_body self' !!! other d = msg_body self !!! other d).
Proof.
  destruct (parse_Done packet d self) as (ret & self' & out & fed & Hp & _ & Hs & _).
  destruct (parse_untouched _ _ _ _ _ _ _ Hp) as (Hh & Hc & Hb & Hg).
  exists ret, self', out, fed. split_and!; [done..|].
  destruct d; simpl; [|naive_solver]. intros [?|Hz]; [done|]. by apply Hg.
Qed.

(** C16. A capture crashes exactly when one of its calls names
    [HTTP_BOTH]: then the guard of line 27 fails, [str] stays null and line
    54 dereferences it.  With [HTTP_REQUEST] and [HTTP_RESPONSE] alone, in
    any interleaving and whatever the segments hold, every call returns. *)
Theorem parse_all_crashes_iff calls self :
  parse_all calls self = None ↔ Exists (λ c, c.2 = HTTP_BOTH) calls.
Proof.
  revert self. induction calls as [|[packet t] calls IH]; intros self; simpl.
  { by rewrite Exists_nil. }
  rewrite Exists_cons. simpl. destruct (direction_of t) as [d|] eqn:Hd.
  - apply direction_of_Some in Hd as ->.
    destruct (parse_Done packet d self) as (ret & self' & out & fed & -> & _).
    specialize (IH self'). destruct (parse_all calls self') as [[[??]?]|].
    + split; [done|]. intros [?|Hc]; [by destruct d|]. by apply IH in Hc.
    + split; [|done]. intros _. right. by apply IH.
  - destruct t; simplify_eq. rewrite parse_http_both_crashes. naive_solver.
Qed.

(** C19. The reassembly of the two directions is independent under any
    interleaving of their segments: after a capture with no [HTTP_BOTH] call,
    each direction's [raw], [next_seq] and [out_of_order_packet] are what the
    direction's own segments, taken alone and in their order, make of
    them. *)
Theorem parse_all_streams calls self :
  Forall (λ c, c.2 ≠ HTTP_BOTH) calls →
  ∃ self' out feds,
    parse_all calls self = Some (self', out, feds) ∧
    ∀ d, streams self' !!! d = absorb_all (segments_of d calls) (streams self !!! d).
Proof.
  revert self. induction calls as [|[packet t] calls IH]; intros self Hall.
  { by eexists _, _, _. }
  apply Forall_cons in Hall as [Ht Hall]. simpl in Ht.
  destruct (direction_of t) as [d|] eqn:Hd; [|by destruct t].
  apply direction_of_Some in Hd as ->. simpl.
  destruct (parse_Done packet d self) as (ret & self1 & out1 & fed & -> & Hd & Ho & _).
  destruct (IH self1 Hall) as (self' & out & feds & -> & Hs).
  eexists _, _, _. split; [done|]. intros d'. rewrite Hs. unfold segments_of.
  simpl. destruct (decide (d' = d)) as [->|Hne].
  - by rewrite decide_True, Hd by done.
  - rewrite decide_False by (by destruct d, d'). f_equal.
    by destruct d, d'; simpl in *.
Qed.

(** C2. End to end: when the segments of a stream are captured for a
    direction that has seen nothing, the first of them first and the others
    in any order, no call crashes, and the chunks given to the token parser,
    concatenated in call order, are the stream: every byte once, in
    sequence order. *)
Theorem parse_all_feeds_stream d p ps qs :
  0 ≤ seq p → chain (seq p) (p :: ps) →
  seq p + size_of (stream_of (p :: ps)) < u32_modulus → qs ≡ₚ ps →
  ∃ self' out feds,
    parse_all (deliver d (p :: qs)) custom_parser_init = Some (self', out, feds) ∧
    mjoin feds = stream_of (p :: ps) ∧
    streams self' !!! d =
      expecting (stream_of (p :: ps)) (seq p + size_of (stream_of (p :: ps))) ∧
    streams self' !!! other d = stream_init.
Proof.
  intros Hp Hc Hend Hperm.
  destruct (parse_all_deliver d (p :: qs) custom_parser_init)
    as (self' & out & feds & Hrun & Hd & Ho & Hraw).
  exists self', out, feds.
  assert (∀ d', streams custom_parser_init !!! d' = stream_init) as Hinit
    by by intros [].
  rewrite Hinit in *. rewrite Hd, (absorb_all_from_head p ps qs) in * by done.
  by split_and!.
Qed.

End parse_properties.

(** ** The concrete exchange, parsed *)

Section parse_demo.
#[local] Existing Instances demo_parser demo_decompressor ansi_colors.

(** A request and its compressed response, one segment each: the members
    hold the request line's fields, the header blocks and the decompressed
    body, and nothing is written. *)
Example parse_all_exchange :
  (λ r, (fields r.1.1, r.1.2, r.2)) <$> parse_all demo_exchange custom_parser_init =
    Some ((lit "/x", lit "GET", lit "a.example",
           PerDirection demo_request (take 62 demo_response),
           PerDirection [] (lit "hello"), both true, true),
          [], [demo_request; demo_response]).
Proof. vm_compute. reflexivity. Qed.

(** The same exchange with the response in two segments, cut inside the
    body: the body chunks of the two calls are joined and decompressed when
    the message completes. *)
Example parse_all_two_segments :
  (λ r, (fields r.1.1, r.1.2, r.2)) <$>
    parse_all [ (Packet 1 demo_request, HTTP_REQUEST);
                (Packet 7001 demo_response_head, HTTP_RESPONSE);
                (Packet 7064 demo_response_tail, HTTP_RESPONSE) ] custom_parser_init =
    Some ((lit "/x", lit "GET", lit "a.example",
           PerDirection demo_request (take 62 demo_response),
           PerDirection [] (lit "hello"), both true, true),
          [], [demo_request; demo_response_head; demo_response_tail]).
Proof. vm_compute. reflexivity. Qed.

(** The response that is not compressed but mentions gzip in a later
    header is taken for compressed: decompression fails, the error is
    written and the body is kept. *)
Example parse_identity_response :
  fields_of (parse (Packet 7001 demo_response_identity) HTTP_RESPONSE custom_parser_init) =
    Some (true,
          ([], [], [], PerDirection [] (take 88 demo_response_identity),
           PerDirection [] (lit "hi"), PerDirection false true, true),
          [Stderr decompress_error], demo_response_identity).
Proof. vm_compute. reflexivity. Qed.

(** After the exchange, a second request on the same object runs the
    decompressor on the response body once more. *)
Example parse_request_after_gzip :
  (λ r, r.1.2) <$> fields_of (parse (Packet 37 demo_request) HTTP_REQUEST demo_exchanged) =
    Some [Stderr decompress_error].
Proof. vm_compute. reflexivity. Qed.

Lemma parse_retransmission_witness :
  parse (Packet 1 demo_request) (type_of REQUEST) demo_self =
    Done true (set_parser (select_parser (type_of REQUEST) demo_self) demo_self) [] [].
Proof. apply parse_retransmission; concrete. Defined.

Lemma parse_ahead_witness :
  parse (Packet 100 demo_request) (type_of REQUEST) demo_self =
    Done true
      (set_streams
         (<[REQUEST := buffer_segment (Packet 100 demo_request) (streams demo_self !!! REQUEST)]>
            (streams demo_self))
         (set_parser (select_parser (type_of REQUEST) demo_self) demo_self)) [] [].
Proof. apply parse_ahead; concrete. Defined.

Lemma parse_switch_forgets_witness :
  parse (Packet 7001 demo_response) HTTP_RESPONSE demo_self =
    parse (Packet 7001 demo_response) HTTP_RESPONSE
      (set_parser (http_parser_init HTTP_RESPONSE) demo_self).
Proof. apply parse_switch_forgets; concrete. Defined.

Lemma parse_all_streams_witness :
  ∃ self' out feds,
    parse_all demo_exchange custom_parser_init = Some (self', out, feds) ∧
    ∀ d, streams self' !!! d =
         absorb_all (segments_of d demo_exchange) (streams custom_parser_init !!! d).
Proof. apply parse_all_streams. by repeat constructor. Defined.

Lemma parse_all_feeds_stream_witness :
  ∃ self' out feds,
    parse_all (deliver REQUEST [seg1; seg3; seg2_long]) custom_parser_init =
      Some (self', out, feds) ∧
    mjoin feds = stream_of [seg1; seg2_long; seg3] ∧
    streams self' !!! REQUEST =
      expecting (stream_of [seg1; seg2_long; seg3])
        (seq seg1 + size_of (stream_of [seg1; seg2_long; seg3])) ∧
    streams self' !!! other REQUEST = stream_init.
Proof.
  apply (parse_all_feeds_stream REQUEST seg1 [seg2_long; seg3] [seg3; seg2_long]);
    [concrete..|apply perm_swap].
Defined.

End parse_demo.
