(* ===== verification/Invariant.v ===== *)
(** * The states of a [custom_parser] object and what holds in all of them

    An object of class [custom_parser] is created by the constructor and
    then changed by calls of its public methods [parse] and [set_addr]
    (src/custom_parser.cpp, lines 4-19, 21-59 and 65-68).  This file states
    that as a step relation and proves, by induction on the steps, the
    well-formedness of every object that can arise: the token parser is
    one for requests or for responses, each direction is in a state the
    reassembly can reach, a header block is a prefix of its direction's
    [raw], the stored field name has no upper-case letter, and the marks
    set by callbacks ([complete_flag], [gzip_flag]) are only set once bytes
    of the direction have been seen. *)

From Stdlib Require Import ZArith Lia.
From stdpp Require Import gmap relations.
From S2P Require Import Prelude CString Reassembly External Exchange Parse.

Section object.
Context `{TokenParser} `{Decompressor} `{Colors}.
Implicit Types (self c : custom_parser) (d : direction) (cb : callback).

(** ** Steps *)

(** One call of a method that changes the object.  A call of [parse] that
    crashes leaves no object behind; sequence numbers are 32-bit. *)
Inductive step : custom_parser → custom_parser → Prop :=
  | step_parse packet d self ret self' out fed :
      is_u32 (seq packet) →
      parse packet (type_of d) self = Done ret self' out fed →
      step self self'
  | step_set_addr src_addr dst_addr self :
      step self (set_addr src_addr dst_addr self).

(** The objects that exist: what the constructor makes, and what a step
    makes of one of them. *)
Definition object_reachable (self : custom_parser) : Prop :=
  rtc step custom_parser_init self.

(** ** Well-formedness *)

(** What the callbacks keep of the members they fill. *)
Record members_wf (c : custom_parser) : Prop := MembersWf {
  wf_header d : header c !!! d `prefix_of` raw (streams c !!! d);
  wf_temp_header_field : Forall (λ ch, is_upper ch = false) (temp_header_field c);
  wf_complete_flag d : complete_flag c !!! d = true → raw (streams c !!! d) ≠ [];
  wf_gzip_flag : gzip_flag c = true → raw (streams c !!! RESPONSE) ≠ []
}.

Record custom_parser_wf (self : custom_parser) : Prop := CustomParserWf {
  wf_parser_type : parser_type (parser self) ≠ HTTP_BOTH;
  wf_streams d : reachable (streams self !!! d);
  wf_members : members_wf self
}.

End object.

(** ** Lemmas on well-formedness *)

Section object_lemmas.
Context `{TokenParser} `{Decompressor} `{Colors}.
Implicit Types (self c : custom_parser) (d : direction) (cb : callback).

Lemma custom_parser_init_wf : custom_parser_wf custom_parser_init.
Proof.
  split; [done|intros []; apply reachable_init|].
  split; simpl; try done; by intros [].
Qed.

(** The members' well-formedness reads the streams only through [raw], and
    survives every growth of [raw]. *)
Lemma members_wf_grow ss c :
  (∀ d, raw (streams c !!! d) `prefix_of` raw (ss !!! d)) →
  members_wf c → members_wf (set_streams ss c).
Proof.
  intros Hgrow [Hh Hf Hc Hg]. split; simpl; [|done|..].
  - intros d. etrans; [apply Hh|apply Hgrow].
  - intros d Hd Hnil. destruct (Hgrow d) as [k Hk]. rewrite Hnil in Hk.
    apply (Hc d Hd). symmetry in Hk. by apply app_eq_nil in Hk as [? _].
  - intros Hz Hnil. destruct (Hgrow RESPONSE) as [k Hk]. rewrite Hnil in Hk.
    apply (Hg Hz). symmetry in Hk. by apply app_eq_nil in Hk as [? _].
Qed.

Lemma members_wf_set_parser p c : members_wf c → members_wf (set_parser p c).
Proof. by intros []. Qed.

Lemma members_wf_set_addr src_addr dst_addr c :
  members_wf c → members_wf (set_addr src_addr dst_addr c).
Proof. by intros []. Qed.

(** A callback made while bytes of direction [d] are parsed keeps the
    members well formed. *)
Lemma call_members_wf buf base cb d c :
  cb_type cb = type_of d → raw (streams c !!! d) ≠ [] →
  members_wf c → members_wf (ret_self (call buf base cb c)).
Proof.
  intros Ht Hraw [Hh Hf Hc Hg]. unfold call. destruct (cb_kind cb).
  - by split.
  - split; simpl; [done| |done..]. apply lower_field_normal.
  - unfold on_header_value. repeat case_match; try by split.
    split; simpl; [done..|]. intros _. destruct d; simpl in *; [congruence|done].
  - unfold on_headers_complete. rewrite Ht, direction_of_type_of.
    split; simpl; [|done..]. intros d'. destruct (decide (d = d')) as [<-|Hne].
    + rewrite lookup_total_insert_eq_pd. apply prefix_take.
    + by rewrite lookup_total_insert_ne_pd.
  - unfold on_body. rewrite Ht, direction_of_type_of. by split.
  - rewrite on_message_complete_self, Ht, direction_of_type_of.
    simpl. assert (∀ d', <[d:=true]> (complete_flag c) !!! d' = true →
                         raw (streams c !!! d') ≠ []) as Hc'.
    { intros d'. destruct (decide (d = d')) as [<-|Hne]; [done|].
      rewrite lookup_total_insert_ne_pd by done. apply Hc. }
    destruct (gzip_flag c) eqn:Hz; split; simpl; auto; congruence.
Qed.

Lemma run_callbacks_members_wf buf base d p data c :
  parser_type p = type_of d → raw (streams c !!! d) ≠ [] → members_wf c →
  members_wf (run_callbacks buf base (ex_callbacks (http_parser_execute p data)) c).1.
Proof.
  intros Hp Hraw Hc.
  apply (run_callbacks_ind_on (λ cb, cb_type cb = type_of d)
           (λ c', streams c' = streams c ∧ members_wf c')); [| |done].
  - rewrite <-Hp. apply execute_callback_type. rewrite Hp. by destruct d.
  - intros cb c' Ht [Hs Hc']. rewrite call_streams. split; [done|].
    apply (call_members_wf _ _ _ d); [done| |done]. by rewrite Hs.
Qed.

(** The object when control reaches line 54: the parser selected, the
    direction's stream reassembled. *)
Lemma reassembled_wf packet d self :
  is_u32 (seq packet) → custom_parser_wf self →
  custom_parser_wf
    (set_streams (<[d := absorb_keep (streams self !!! d) packet]> (streams self))
       (set_parser (select_parser (type_of d) self) self)).
Proof.
  intros Hseq [Ht Hs Hm]. split; simpl.
  - rewrite select_parser_type. by destruct d.
  - intros d'. destruct (decide (d = d')) as [<-|Hne].
    + rewrite lookup_total_insert_eq_pd. by apply reachable_parse.
    + by rewrite lookup_total_insert_ne_pd.
  - apply members_wf_grow; [|by apply members_wf_set_parser].
    intros d'. simpl. destruct (decide (d = d')) as [<-|Hne].
    + rewrite lookup_total_insert_eq_pd. apply absorb_keep_prefix.
    + by rewrite lookup_total_insert_ne_pd.
Qed.

Lemma parse_wf packet d self ret self' out fed :
  is_u32 (seq packet) → custom_parser_wf self →
  parse packet (type_of d) self = Done ret self' out fed → custom_parser_wf self'.
Proof.
  intros Hseq Hwf. pose proof (reassembled_wf packet d self Hseq Hwf) as [Ht1 Hs1 Hm1].
  rewrite parse_spec. simpl.
  pose proof (absorb_keep_prefix (streams self !!! d) packet) as [k Hk].
  rewrite Hk, drop_app_length. case_decide as Hfed; intros; simplify_eq.
  - case_match; [by split|]. destruct Hwf as [? ? ?].
    split; simpl; [|done|by apply members_wf_set_parser].
    rewrite select_parser_type. by destruct d.
  - simpl in *. split; simpl.
    + rewrite execute_type by done. done.
    + intros d'. rewrite run_callbacks_streams. apply Hs1.
    + apply members_wf_set_parser, (run_callbacks_members_wf _ _ d); [|simpl|done].
      * simpl. by rewrite select_parser_type.
      * rewrite lookup_total_insert_eq_pd, Hk. by destruct (raw (streams self !!! d)).
Qed.

Lemma step_wf self self' : step self self' → custom_parser_wf self → custom_parser_wf self'.
Proof.
  intros [packet d c ret c' out fed Hseq Hp|src_addr dst_addr c] Hwf.
  - by eapply parse_wf.
  - destruct Hwf as [? ? ?]. split; [done..|]. by apply members_wf_set_addr.
Qed.

(** A capture that does not crash is a sequence of steps. *)
Lemma parse_all_steps calls self self' out feds :
  Forall (λ call, is_u32 (seq call.1)) calls →
  parse_all calls self = Some (self', out, feds) → rtc step self self'.
Proof.
  intros Hall. revert self out feds.
  induction Hall as [|[packet t] calls Hseq _ IH]; intros self out feds; simpl.
  { intros. by simplify_eq. }
  destruct (parse packet t self) as [|ret self1 out1 fed] eqn:Hp; [done|].
  destruct (parse_all calls self1) as [[[self2 out2] feds2]|] eqn:Hrest; [|done].
  intros. simplify_eq. eapply rtc_l; [|by eapply IH].
  destruct (direction_of t) as [d|] eqn:Hd.
  - apply direction_of_Some in Hd as ->. by eapply step_parse.
  - destruct t; simplify_eq. by rewrite parse_http_both_crashes in Hp.
Qed.

(** The object a capture leaves (the new object, had it crashed) can be
    reached by steps. *)
Lemma parse_all_reachable calls :
  Forall (λ call, is_u32 (seq call.1)) calls →
  object_reachable
    (default custom_parser_init
       ((λ r, r.1.1) <$> parse_all calls custom_parser_init)).
Proof.
  intros Hall.
  destruct (parse_all calls custom_parser_init) as [[[self' out] feds]|] eqn:E;
    simpl; [by eapply parse_all_steps|apply rtc_refl].
Qed.

End object_lemmas.

(** ** Properties *)

Section object_properties.
Context `{TokenParser} `{Decompressor} `{Colors}.

(** C13. Every object of class [custom_parser] that the constructor and
    calls of [parse] and [set_addr] can produce is well formed: its token
    parser is one for requests or for responses, each direction is in a
    state the reassembly reaches, each header block is a prefix of its
    direction's [raw], the stored field name has no upper-case letter, and
    [complete_flag] and [gzip_flag] are only set once bytes of the direction
    (of the response, for [gzip_flag]) have arrived. *)
Theorem object_reachable_wf self : object_reachable self → custom_parser_wf self.
Proof.
  apply (rtc_ind_r custom_parser_wf).
  - apply custom_parser_init_wf.
  - intros c c' _ Hstep IH. by eapply step_wf.
Qed.

End object_properties.

(** ** The concrete exchange *)

Section object_demo.
#[local] Existing Instances demo_parser demo_decompressor ansi_colors.

Lemma object_reachable_wf_witness : custom_parser_wf demo_exchanged.
Proof.
  apply object_reachable_wf, (parse_all_reachable demo_exchange).
  apply Forall_forall. intros call Hcall.
  repeat (apply elem_of_cons in Hcall as [->|Hcall]); [concrete..|].
  by apply elem_of_nil in Hcall.
Defined.

End object_demo.
