(* ===== verification/Sink.v ===== *)
(** * Filtering and writing an exchange

    Models [filter_url], [save_http_request] and the two [operator<<]
    (src/custom_parser.cpp, lines 135-195).  What the program writes is a
    list of [output] events in order.  The file system is the one thing
    [save_http_request] asks the world: whether the file opens, a function
    [can_open] on the name given to [std::ofstream], which is the C string of
    [save_filename]. *)

From Stdlib Require Import ZArith Lia.
From stdpp Require Import gmap.
From S2P Require Import Prelude CString Reassembly External Exchange.

Section sink.
Context `{TokenParser} `{TextHeuristic} `{Colors}.
Implicit Types (self : custom_parser) (url_filter_re : option pcre).
Implicit Types (output_path join_addr : bytes) (is_atty : bool).

(** Lines 135-140.  A null [url_filter_re] is [None]. *)
Definition filter_url url_filter_re (url : bytes) : bool :=
  match url_filter_re with
  | None => true
  | Some re => bool_decide (0 ≤ pcre_exec re url)
  end.

(** The marker of lines 173, 180 and 184. *)
Definition marker (text : bytes) : bytes := ANSI_COLOR_RED ++ text ++ ANSI_COLOR_RESET.

(** Lines 166-187: [operator<<] on a [std::ostream]; [is_atty] is the
    global flag of util.h. *)
Definition write_ostream is_atty self : bytes :=
  ANSI_COLOR_GREEN ++ header self !!! REQUEST ++ ANSI_COLOR_RESET ++
  (if negb is_atty || is_plain_text (msg_body self !!! REQUEST)
   then msg_body self !!! REQUEST
   else marker (lit "[binary request body]")) ++
  endl ++
  ANSI_COLOR_BLUE ++ header self !!! RESPONSE ++ ANSI_COLOR_RESET ++
  (if decide (msg_body self !!! RESPONSE = []) then marker (lit "[empty response body]")
   else if negb is_atty || is_plain_text (msg_body self !!! RESPONSE)
        then msg_body self !!! RESPONSE
        else marker (lit "[binary response body]")).

(** Lines 189-195: [operator<<] on a [std::ofstream]. *)
Definition write_ofstream self : bytes :=
  header self !!! REQUEST ++ msg_body self !!! REQUEST ++
  header self !!! RESPONSE ++ msg_body self !!! RESPONSE.

(** The line of lines 148-149. *)
Definition address_line self : bytes :=
  ANSI_COLOR_CYAN ++ address self !!! REQUEST ++ lit " -> " ++
  address self !!! RESPONSE ++ ANSI_COLOR_RESET ++ endl.

(** The message of line 157. *)
Definition not_opened (save_filename : bytes) : bytes :=
  lit "ofstream [" ++ save_filename ++ lit "] is not opened." ++ endl.

(** Lines 142-164.  The result is what is written, in order; [Exit 1] last
    when the process is ended. *)
Definition save_http_request (can_open : bytes → bool) is_atty
    url_filter_re output_path join_addr self : list output :=
  let host_with_url := host self ++ url self in
  if negb (filter_url url_filter_re host_with_url) then []
  else
    Stdout (address_line self) ::
    if decide (output_path ≠ []) then
      let save_filename := output_path ++ lit "/" ++ host self in
      if can_open (until_nul save_filename)
      then [FileAppend (until_nul save_filename) (write_ofstream self ++ endl)]
      else [Stderr (not_opened save_filename); Exit 1]
    else [Stdout (write_ostream is_atty self ++ endl)].

(** The status the process ends with, if these outputs end it. *)
Definition exit_code (out : list output) : option Z :=
  head (omap (λ o, if o is Exit code then Some code else None) out).

End sink.

(** ** A concrete exchange to write *)

Section sink_demo_data.
#[local] Existing Instances demo_parser seven_bit ansi_colors.

(** The object of file Exchange after the request, with a response whose
    body is not text and with the addresses set. *)
Definition demo_saved : custom_parser :=
  set_addr (lit "10.0.0.1:4000") (lit "10.0.0.2:80")
    (set_msg_body (<[RESPONSE := [xff; xfe]]> (both []))
       (set_header (<[RESPONSE := lit "HTTP/1.1 200 OK" ++ crlf ++ crlf]>
                      (header demo_after_request)) demo_after_request)).

End sink_demo_data.

(** ** Properties *)

Section sink_properties.
Context `{TokenParser} `{TextHeuristic} `{Colors}.
Implicit Types (self : custom_parser) (url_filter_re : option pcre) (re : pcre).
Implicit Types (output_path join_addr : bytes) (is_atty : bool) (can_open : bytes → bool).

(** The test of lines 170 and 181, read from the marker's side. *)
Lemma shown_or_marker {A} (atty plain : bool) (x y : A) :
  (if negb atty || plain then x else y) = (if atty && negb plain then y else x).
Proof. by destruct atty, plain. Qed.

(** C25. A configured filter that does not match [host ++ url] suppresses
    the exchange entirely: nothing is written to the terminal or to a file,
    whatever the output path and whether or not its file could be
    opened. *)
Theorem save_http_request_filtered can_open is_atty re output_path join_addr self :
  pcre_exec re (host self ++ url self) < 0 →
  save_http_request can_open is_atty (Some re) output_path join_addr self = [].
Proof.
  intros Hrc. unfold save_http_request, filter_url.
  by rewrite bool_decide_eq_false_2 by lia.
Qed.

(** C26. Which exchanges are written, and what is written first.  An
    exchange is suppressed exactly when a filter is configured and
    [pcre_exec] on [host ++ url] returns a negative code; a return of 0,
    which [pcre_exec] gives for a match that needed more room for its
    offsets, counts as a match.  Everything else starts with the address
    line, which shows the two addresses given to [set_addr], source before
    destination. *)
Theorem save_http_request_first can_open is_atty url_filter_re output_path join_addr
    src_addr dst_addr self :
  head (save_http_request can_open is_atty url_filter_re output_path join_addr
          (set_addr src_addr dst_addr self)) =
    match url_filter_re with
    | Some re =>
        if decide (pcre_exec re (host self ++ url self) < 0) then None
        else Some (Stdout (ANSI_COLOR_CYAN ++ src_addr ++ lit " -> " ++ dst_addr ++
                           ANSI_COLOR_RESET ++ endl))
    | None => Some (Stdout (ANSI_COLOR_CYAN ++ src_addr ++ lit " -> " ++ dst_addr ++
                            ANSI_COLOR_RESET ++ endl))
    end.
Proof.
  unfold save_http_request, filter_url, address_line. simpl.
  destruct url_filter_re as [re|]; [|done].
  destruct (decide (pcre_exec re (host self ++ url self) < 0)).
  - by rewrite bool_decide_eq_false_2 by lia.
  - by rewrite bool_decide_eq_true_2 by lia.
Qed.

(** C27. Without a filter every exchange is written, and with an output
    path whose file opens it goes to the file of the host: first the address
    line on the terminal (in cyan, the request's address, [" -> "], the
    response's address), then one append of the four members back to back,
    request header, request body, response header, response body, and a
    line end, with no colour and no marker; the process goes on. *)
Theorem save_http_request_file can_open is_atty url_filter_re output_path join_addr self :
  filter_url url_filter_re (host self ++ url self) = true →
  output_path ≠ [] →
  can_open (until_nul (output_path ++ lit "/" ++ host self)) = true →
  save_http_request can_open is_atty url_filter_re output_path join_addr self =
    [ Stdout (ANSI_COLOR_CYAN ++ address self !!! REQUEST ++ lit " -> " ++
              address self !!! RESPONSE ++ ANSI_COLOR_RESET ++ endl);
      FileAppend (until_nul (output_path ++ lit "/" ++ host self))
        (header self !!! REQUEST ++ msg_body self !!! REQUEST ++
         header self !!! RESPONSE ++ msg_body self !!! RESPONSE ++ endl) ].
Proof.
  intros Hf Hp Ho. unfold save_http_request. rewrite Hf, decide_True, Ho by done.
  unfold write_ofstream. simpl. by rewrite <-!app_assoc.
Qed.

(** C28. When the file of the host cannot be opened the process is ended
    with status 1, after the address line and the message on the error
    stream; this is the only way [save_http_request] ends the process. *)
Theorem save_http_request_exit can_open is_atty url_filter_re output_path join_addr self :
  exit_code (save_http_request can_open is_atty url_filter_re output_path join_addr self) =
    if filter_url url_filter_re (host self ++ url self) &&
       bool_decide (output_path ≠ []) &&
       negb (can_open (until_nul (output_path ++ lit "/" ++ host self)))
    then Some 1 else None.
Proof.
  unfold save_http_request.
  destruct (filter_url _ _); [|done]. rewrite (bool_decide_decide (output_path ≠ [])).
  destruct (decide (output_path ≠ [])); [|done]. by destruct (can_open _).
Qed.

(** C29. Without an output path the exchange goes to the terminal: the
    address line and the coloured text, in which the request body is
    replaced by a marker when the terminal is interactive and the body is not
    plain text, and the response body by the marker for an empty body or, in
    the same case, for a binary one. *)
Theorem save_http_request_terminal can_open is_atty url_filter_re join_addr self :
  filter_url url_filter_re (host self ++ url self) = true →
  save_http_request can_open is_atty url_filter_re [] join_addr self =
    [ Stdout (ANSI_COLOR_CYAN ++ address self !!! REQUEST ++ lit " -> " ++
              address self !!! RESPONSE ++ ANSI_COLOR_RESET ++ endl);
      Stdout (ANSI_COLOR_GREEN ++ header self !!! REQUEST ++ ANSI_COLOR_RESET ++
              (if is_atty && negb (is_plain_text (msg_body self !!! REQUEST))
               then ANSI_COLOR_RED ++ lit "[binary request body]" ++ ANSI_COLOR_RESET
               else msg_body self !!! REQUEST) ++
              endl ++
              ANSI_COLOR_BLUE ++ header self !!! RESPONSE ++ ANSI_COLOR_RESET ++
              (if decide (msg_body self !!! RESPONSE = [])
               then ANSI_COLOR_RED ++ lit "[empty response body]" ++ ANSI_COLOR_RESET
               else if is_atty && negb (is_plain_text (msg_body self !!! RESPONSE))
                    then ANSI_COLOR_RED ++ lit "[binary response body]" ++ ANSI_COLOR_RESET
                    else msg_body self !!! RESPONSE) ++
              endl) ].
Proof.
  intros Hf. unfold save_http_request. rewrite Hf, decide_False by naive_solver.
  unfold write_ostream, address_line, marker. rewrite !shown_or_marker. cbn [negb].
  by rewrite <-!app_assoc.
Qed.

(** C39. The file is named by the [Host] header of the request as
    received: a host that contains path separators names a file outside the
    output directory, and a host with a NUL byte names the file by what
    precedes it. *)
Theorem save_http_request_file_name can_open is_atty url_filter_re output_path join_addr
    self text :
  filter_url url_filter_re (host self ++ url self) = true →
  output_path ≠ [] → x00 ∉ output_path →
  FileAppend (output_path ++ lit "/" ++ until_nul (host self)) text ∈
    save_http_request (λ _, true) is_atty url_filter_re output_path join_addr self ↔
  text = write_ofstream self ++ endl.
Proof.
  intros Hf Hp Hnul. unfold save_http_request. rewrite Hf, decide_True by done.
  cbn [negb].
  assert (until_nul (output_path ++ lit "/" ++ host self) =
          output_path ++ lit "/" ++ until_nul (host self)) as ->.
  { by rewrite until_nul_app. }
  rewrite !elem_of_cons, elem_of_nil. split; [|intros ->; auto].
  intros [?|[?|[]]]; by simplify_eq.
Qed.

End sink_properties.

(** ** The concrete exchange, written *)

Section sink_demo.
#[local] Existing Instances demo_parser seven_bit ansi_colors.

(** On an interactive terminal the binary body is replaced by its marker;
    redirected, it is written as it is. *)
Example save_http_request_marker :
  save_http_request (λ _, true) true None [] [] demo_saved =
    [ Stdout (ANSI_COLOR_CYAN ++ lit "10.0.0.1:4000" ++ lit " -> " ++ lit "10.0.0.2:80" ++
              ANSI_COLOR_RESET ++ endl);
      Stdout (ANSI_COLOR_GREEN ++ demo_request ++ ANSI_COLOR_RESET ++ endl ++
              ANSI_COLOR_BLUE ++ lit "HTTP/1.1 200 OK" ++ crlf ++ crlf ++ ANSI_COLOR_RESET ++
              ANSI_COLOR_RED ++ lit "[binary response body]" ++ ANSI_COLOR_RESET ++ endl) ] ∧
  save_http_request (λ _, true) false None [] [] demo_saved =
    [ Stdout (ANSI_COLOR_CYAN ++ lit "10.0.0.1:4000" ++ lit " -> " ++ lit "10.0.0.2:80" ++
              ANSI_COLOR_RESET ++ endl);
      Stdout (ANSI_COLOR_GREEN ++ demo_request ++ ANSI_COLOR_RESET ++ endl ++
              ANSI_COLOR_BLUE ++ lit "HTTP/1.1 200 OK" ++ crlf ++ crlf ++ ANSI_COLOR_RESET ++
              [xff; xfe] ++ endl) ].
Proof. split; vm_compute; reflexivity. Qed.

(** A host that climbs out of the output directory names a file there. *)
Example save_http_request_escapes :
  save_http_request (λ _, true) false None (lit "/var/flows") []
    (set_host (lit "../../etc/cron.d/job") demo_saved) =
    [ Stdout (ANSI_COLOR_CYAN ++ lit "10.0.0.1:4000" ++ lit " -> " ++ lit "10.0.0.2:80" ++
              ANSI_COLOR_RESET ++ endl);
      FileAppend (lit "/var/flows/../../etc/cron.d/job")
        (write_ofstream demo_saved ++ endl) ].
Proof. vm_compute. reflexivity. Qed.

(** A filter whose [pcre_exec] returns 0 lets the exchange through; one
    that returns the code for no match suppresses it. *)
Example save_http_request_threshold :
  save_http_request (λ _, true) false (Some {| pcre_exec := λ _, 0 |}) [] [] demo_saved =
    save_http_request (λ _, true) false None [] [] demo_saved ∧
  save_http_request (λ _, true) false (Some {| pcre_exec := λ _, -1 |}) [] [] demo_saved = [].
Proof. split; vm_compute; reflexivity. Qed.

Lemma save_http_request_filtered_witness :
  save_http_request (λ _, true) true (Some (pcre_contains (lit "b.example")))
    (lit "/var/flows") [] demo_saved = [].
Proof. apply save_http_request_filtered. concrete. Defined.

Lemma save_http_request_file_witness :
  save_http_request (λ _, true) true (Some (pcre_contains (lit "a.example")))
    (lit "/var/flows") [] demo_saved =
    [ Stdout (ANSI_COLOR_CYAN ++ lit "10.0.0.1:4000" ++ lit " -> " ++ lit "10.0.0.2:80" ++
              ANSI_COLOR_RESET ++ endl);
      FileAppend (until_nul (lit "/var/flows" ++ lit "/" ++ host demo_saved))
        (header demo_saved !!! REQUEST ++ msg_body demo_saved !!! REQUEST ++
         header demo_saved !!! RESPONSE ++ msg_body demo_saved !!! RESPONSE ++ endl) ].
Proof. apply save_http_request_file; concrete. Defined.

Lemma save_http_request_terminal_witness :
  save_http_request (λ _, false) true None [] [] demo_saved =
    [ Stdout (ANSI_COLOR_CYAN ++ lit "10.0.0.1:4000" ++ lit " -> " ++ lit "10.0.0.2:80" ++
              ANSI_COLOR_RESET ++ endl);
      Stdout (ANSI_COLOR_GREEN ++ header demo_saved !!! REQUEST ++ ANSI_COLOR_RESET ++
              (if true && negb (is_plain_text (msg_body demo_saved !!! REQUEST))
               then ANSI_COLOR_RED ++ lit "[binary request body]" ++ ANSI_COLOR_RESET
               else msg_body demo_saved !!! REQUEST) ++
              endl ++
              ANSI_COLOR_BLUE ++ header demo_saved !!! RESPONSE ++ ANSI_COLOR_RESET ++
              (if decide (msg_body demo_saved !!! RESPONSE = [])
               then ANSI_COLOR_RED ++ lit "[empty response body]" ++ ANSI_COLOR_RESET
               else if true && negb (is_plain_text (msg_body demo_saved !!! RESPONSE))
                    then ANSI_COLOR_RED ++ lit "[binary response body]" ++ ANSI_COLOR_RESET
                    else msg_body demo_saved !!! RESPONSE) ++
              endl) ].
Proof. apply save_http_request_terminal. concrete. Defined.

Lemma save_http_request_file_name_witness :
  FileAppend (lit "/var/flows" ++ lit "/" ++ until_nul (host demo_saved))
    (write_ofstream demo_saved ++ endl) ∈
    save_http_request (λ _, true) true None (lit "/var/flows") [] demo_saved ↔
  write_ofstream demo_saved ++ endl = write_ofstream demo_saved ++ endl.
Proof.
  refine (save_http_request_file_name (λ _, true) true None (lit "/var/flows") []
            demo_saved _ _ _ _); concrete.
Defined.

End sink_demo.
